(** * gin-cache: a verification development for [cache.go]

    The file embeds the response cache of [cache.go] in Rocq and states the
    properties of its expiry arithmetic, of its entry codec and of its
    request handler.

    Layout: first the embedding (the Go library types the code relies on,
    then the functions of [cache.go] under their own names), then the
    theorems. *)

From Stdlib Require Import ZArith Lia Strings.Byte Ascii String DecimalString.
From stdpp Require Import base option list strings gmap.

Local Open Scope Z_scope.

(** ** Machine integers

    Go's [int64] arithmetic wraps around; [wrap64] is the wrap-around, written
    out wherever the source computes on [int64]. *)

Definition minInt64 : Z := - 2 ^ 63.
Definition maxInt64 : Z := 2 ^ 63 - 1.

Definition wrap64 (z : Z) : Z := (z + 2 ^ 63) mod 2 ^ 64 - 2 ^ 63.

Definition isInt64 (z : Z) : Prop := minInt64 <= z <= maxInt64.

(** ** package time

    A [time.Time] is modelled by its wall-clock reading: seconds since
    January 1, year 1, 00:00:00 UTC (the zero time, Go's internal epoch) and
    nanoseconds within the second.  The location pointer and the monotonic
    reading are left out: [cache.go] never looks at a location, and every
    comparison it makes has an operand produced by [Truncate] or by the
    decoder, neither of which carries a monotonic reading, so that Go takes
    the wall-clock path. *)

Module time.

Record Time : Type := mkTime { sec : Z; nsec : Z }.

(** A [time.Duration] is an [int64] count of nanoseconds. *)
Definition Duration : Type := Z.

Definition Nanosecond : Duration := 1.
Definition Second : Duration := 1000000000.

(** [time.Time{}] *)
Definition zero : Time := mkTime 0 0.

Definition internalToUnix : Z := - 62135596800.

Definition eqb (t u : Time) : bool :=
  (sec t =? sec u) && (nsec t =? nsec u).

Definition IsZero (t : Time) : bool := (sec t =? 0) && (nsec t =? 0).

Definition unixSec (t : Time) : Z := wrap64 (sec t + internalToUnix).

(** [func (t Time) UnixNano() int64]: [unixSec*1e9 + nsec] on [int64]. *)
Definition UnixNano (t : Time) : Z := wrap64 (unixSec t * 1000000000 + nsec t).

Definition Before (t u : Time) : bool :=
  (sec t <? sec u) || ((sec t =? sec u) && (nsec t <? nsec u)).

Definition Equal (t u : Time) : bool := eqb t u.

(** [addSec] saturates instead of overflowing. *)
Definition addSec (s d : Z) : Z :=
  let sum := wrap64 (s + d) in
  if Bool.eqb (s <? sum) (0 <? d) then sum
  else if 0 <? d then maxInt64 else - maxInt64.

(** [func (t Time) Add(d Duration) Time] *)
Definition Add (t : Time) (d : Duration) : Time :=
  let dsec := Z.quot d 1000000000 in
  let ns := nsec t + Z.rem d 1000000000 in
  if 1000000000 <=? ns then mkTime (addSec (sec t) (dsec + 1)) (ns - 1000000000)
  else if ns <? 0 then mkTime (addSec (sec t) (dsec - 1)) (ns + 1000000000)
  else mkTime (addSec (sec t) dsec) ns.

(** The absolute time: nanoseconds since the zero time. *)
Definition abs (t : Time) : Z := sec t * 1000000000 + nsec t.

(** [func (t Time) Truncate(d Duration) Time]: for [d <= 0] the time is
    returned as it is; otherwise the remainder [r] of the absolute time
    by [d] (what Go's [div] computes, with [0 <= r < d] also before the
    zero time) is taken off. *)
Definition Truncate (t : Time) (d : Duration) : Time :=
  if d <=? 0 then t else Add t (- (abs t mod d)).

Definition minDuration : Duration := minInt64.
Definition maxDuration : Duration := maxInt64.

(** [func (t Time) Sub(u Time) Duration], with its overflow check. *)
Definition Sub (t u : Time) : Duration :=
  let d := wrap64 (wrap64 (wrap64 (sec t - sec u) * Second) + (nsec t - nsec u)) in
  if Equal (Add u d) t then d
  else if Before t u then minDuration
  else maxDuration.

(** [func (d Duration) Nanoseconds() int64] *)
Definition Nanoseconds (d : Duration) : Z := d.

(** The instants the theorems range over: a nanosecond field in its range
    and a seconds field far enough from the ends of [int64] that adding a
    duration does not saturate. *)
Definition valid (t : Time) : Prop :=
  0 <= nsec t < 1000000000 /\ - 2 ^ 62 <= sec t <= 2 ^ 62.

End time.

Import time.

(** Times whose nanosecond field is in range. *)
Definition norm (t : Time) : Prop := 0 <= nsec t < 1000000000.

(** ** package strconv *)

(** [strconv.FormatInt(n, 10)] *)
Definition FormatInt10 (n : Z) : string := NilZero.string_of_int (Z.to_int n).

(** The last character of a string. *)
Fixpoint lastChar (s : string) : option ascii :=
  match s with
  | EmptyString => None
  | String c s' => match s' with EmptyString => Some c | _ => lastChar s' end
  end.

(** ** cache.go: the expiry policy *)

(** [func roundTimeUp(t time.Time, defaultTime time.Duration) time.Time] *)
Definition roundTimeUp (t : Time) (defaultTime : Duration) : Time :=
  let ti := Truncate t defaultTime in
  let ti := Add ti defaultTime in
  ti.

(** [func getExpiresAtTime(t time.Time, defaultTime time.Duration) time.Time] *)
Definition getExpiresAtTime (t : Time) (defaultTime : Duration) : Time :=
  roundTimeUp t defaultTime.

(** [func getTimeDiff(t time.Time, defaultTime time.Duration) time.Duration] *)
Definition getTimeDiff (t : Time) (defaultTime : Duration) : Duration :=
  let futureTime := roundTimeUp t defaultTime in
  Sub futureTime t.

(** [func getCacheControl(maxAge int64) string] *)
Definition getCacheControl (maxAge : Z) : string :=
  if maxAge =? 0 then "max-age=0, no-cache, no-store, must-revalidate"
  else "max-age=" +:+ FormatInt10 maxAge +:+ ", public".

(** The argument the handler passes to [getCacheControl], on the miss path
    (line 162) and on the hit path (line 189):
    [getTimeDiff(timeNow, cache.options.Expire).Nanoseconds() / 1e9]. *)
Definition maxAgeOf (timeNow : Time) (expire : Duration) : Z :=
  Z.quot (Nanoseconds (getTimeDiff timeNow expire)) 1000000000.

(** ** Bytes

    A Go [[]byte] is a [list byte]; a Go [string] is a byte sequence too and
    is kept as a Rocq [string], converted with [list_byte_of_string] where
    the code looks at its bytes. *)

Definition byte_of_Z (z : Z) : byte :=
  default x00 (Byte.of_N (Z.to_N (z mod 256))).

Definition Z_of_byte (b : byte) : Z := Z.of_N (Byte.to_N b).

(** [n] bytes, most significant first; on a negative [x] these are the
    bytes of its two's complement, as [byte(x >> 56), ..., byte(x)] are. *)
Fixpoint be_bytes (n : nat) (x : Z) : list byte :=
  match n with
  | O => []
  | S n' => be_bytes n' (x / 256) ++ [byte_of_Z x]
  end.

Definition be_value (bs : list byte) : Z :=
  fold_left (fun acc b => acc * 256 + Z_of_byte b) bs 0.

(** Least significant byte first. *)
Fixpoint le_bytes (n : nat) (x : Z) : list byte :=
  match n with
  | O => []
  | S n' => byte_of_Z x :: le_bytes n' (x / 256)
  end.

Definition le_value (bs : list byte) : Z :=
  fold_right (fun b acc => Z_of_byte b + 256 * acc) 0 bs.

(** ** package crypto/md5 and encoding/hex *)

Module md5.

Definition mask32 (x : Z) : Z := x mod 2 ^ 32.

Definition rotl32 (x : Z) (c : Z) : Z :=
  mask32 (Z.lor (Z.shiftl x c) (Z.shiftr x (32 - c))).

Definition not32 (x : Z) : Z := Z.lxor x (2 ^ 32 - 1).

Definition K : list Z :=
  [3614090360; 3905402710; 606105819; 3250441966; 4118548399; 1200080426;
   2821735955; 4249261313; 1770035416; 2336552879; 4294925233; 2304563134;
   1804603682; 4254626195; 2792965006; 1236535329; 4129170786; 3225465664;
   643717713; 3921069994; 3593408605; 38016083; 3634488961; 3889429448;
   568446438; 3275163606; 4107603335; 1163531501; 2850285829; 4243563512;
   1735328473; 2368359562; 4294588738; 2272392833; 1839030562; 4259657740;
   2763975236; 1272893353; 4139469664; 3200236656; 681279174; 3936430074;
   3572445317; 76029189; 3654602809; 3873151461; 530742520; 3299628645;
   4096336452; 1126891415; 2878612391; 4237533241; 1700485571; 2399980690;
   4293915773; 2240044497; 1873313359; 4264355552; 2734768916; 1309151649;
   4149444226; 3174756917; 718787259; 3951481745].

Definition shifts : list Z :=
  [7; 12; 17; 22; 7; 12; 17; 22; 7; 12; 17; 22; 7; 12; 17; 22;
   5; 9; 14; 20; 5; 9; 14; 20; 5; 9; 14; 20; 5; 9; 14; 20;
   4; 11; 16; 23; 4; 11; 16; 23; 4; 11; 16; 23; 4; 11; 16; 23;
   6; 10; 15; 21; 6; 10; 15; 21; 6; 10; 15; 21; 6; 10; 15; 21].

Record state : Type := mkState { sa : Z; sb : Z; sc : Z; sd : Z }.

Definition init : state := mkState 1732584193 4023233417 2562383102 271733878.

(** One of the 64 steps on the block [m] of sixteen words. *)
Definition step (m : list Z) (s : state) (i : nat) : state :=
  let '(mkState a b c d) := s in
  let iz := Z.of_nat i in
  let '(f, g) :=
    if iz <? 16 then (Z.lor (Z.land b c) (Z.land (not32 b) d), iz)
    else if iz <? 32 then (Z.lor (Z.land d b) (Z.land (not32 d) c), (5 * iz + 1) mod 16)
    else if iz <? 48 then (Z.lxor (Z.lxor b c) d, (3 * iz + 5) mod 16)
    else (Z.lxor c (Z.lor b (not32 d)), (7 * iz) mod 16) in
  let f := mask32 (f + a + nth i K 0 + nth (Z.to_nat g) m 0) in
  mkState d (mask32 (b + rotl32 f (nth i shifts 0))) b c.

Fixpoint words (n : nat) (bs : list byte) : list Z :=
  match n with
  | O => []
  | S n' => le_value (take 4 bs) :: words n' (drop 4 bs)
  end.

Definition block (s : state) (bs : list byte) : state :=
  let s' := fold_left (step (words 16 bs)) (seq 0 64) s in
  mkState (mask32 (sa s + sa s')) (mask32 (sb s + sb s'))
          (mask32 (sc s + sc s')) (mask32 (sd s + sd s')).

Fixpoint blocks (n : nat) (s : state) (bs : list byte) : state :=
  match n with
  | O => s
  | S n' => blocks n' (block s (take 64 bs)) (drop 64 bs)
  end.

Definition pad (msg : list byte) : list byte :=
  let len := Z.of_nat (length msg) in
  let zeros := Z.to_nat ((55 - len) mod 64) in
  msg ++ [x80] ++ repeat x00 zeros ++ le_bytes 8 (mask32 (8 * len) + 2 ^ 32 * ((8 * len / 2 ^ 32) mod 2 ^ 32)).

(** [h := md5.New(); io.WriteString(h, s); h.Sum(nil)] *)
Definition Sum (msg : list byte) : list byte :=
  let p := pad msg in
  let s := blocks (length p / 64) init p in
  le_bytes 4 (sa s) ++ le_bytes 4 (sb s) ++ le_bytes 4 (sc s) ++ le_bytes 4 (sd s).

End md5.

Module hex.

Definition digit (z : Z) : ascii :=
  if z <? 10 then ascii_of_N (Z.to_N (48 + z)) else ascii_of_N (Z.to_N (87 + z)).

(** [hex.EncodeToString] *)
Fixpoint EncodeToString (bs : list byte) : string :=
  match bs with
  | [] => EmptyString
  | b :: bs' =>
      String (digit (Z_of_byte b / 16))
        (String (digit (Z_of_byte b mod 16)) (EncodeToString bs'))
  end.

End hex.

(** ** cache.go: keys *)

Definition KEY_PREFIX : string := "gin:cache:".

(** [func md5String(url string) string] *)
Definition md5String (url : string) : string :=
  hex.EncodeToString (md5.Sum (list_byte_of_string url)).

(** ** cache.go: entries and errors *)

(** Go's [error] values: the two the package declares, and the others
    (a store's, the codec's) by their message. *)
Inductive error : Type :=
  | ErrNotFound
  | ErrAlreadyExists
  | ErrOther (msg : string).

Inductive result (A : Type) : Type :=
  | Ok (a : A)
  | Err (e : error).
Arguments Ok {A} a.
Arguments Err {A} e.

(** [type Cached struct]; [http.Header] is [map[string][]string]. *)
Record Cached : Type := mkCached {
  Status : Z;
  Body : list byte;
  Header : gmap string (list string);
  ExpireAt : Time
}.

(** What [dec.Decode(&cch)] leaves behind when [cch] starts as a nil
    pointer: the pointer afterwards (nil when the decoder gave up before
    allocating, a possibly partly filled entry otherwise) and the error it
    returns. *)
Record DecodeResult : Type := mkDecodeResult {
  ptr : option Cached;
  err : option error
}.

(** The entry codec as [cache.go] uses it: [gob.NewEncoder(&b).Encode(v)]
    and [gob.NewDecoder(bytes.NewBuffer(data)).Decode(&cch)]. *)
Class Codec : Type := {
  Encode : Cached -> result (list byte);
  Decode : list byte -> DecodeResult
}.

(** ** package encoding/gob

    The wire format of a [Cached] value as the package documentation gives
    it.  A stream holds length-prefixed messages; the message of a value
    starts with the id of its type, and a struct follows as a sequence of
    (field delta, field value) pairs closed by a zero delta, fields with a
    zero value being left out.  Unsigned integers take one byte up to 127
    and otherwise a byte holding the negated byte count followed by the
    bytes, most significant first; signed integers are folded into unsigned
    ones with the sign in the lowest bit; byte slices and strings are a
    length and the bytes; a map is a count and the (key, element) pairs; a
    [time.Time] travels as the length-prefixed output of [MarshalBinary].

    Two things are outside the model.  The messages that define the wire
    types, which the encoder sends once ahead of the first value and which
    do not depend on the value, are left out of the stream; the id [tid]
    they give to [Cached] is a parameter.  Go iterates over a map in an
    unspecified order; the model takes the order of [map_to_list]. *)

Module gob.

Definition tooBig : Z := 2 ^ 33.
Definition uint64Size : Z := 8.

Definition Parser (A : Type) : Type := list byte -> option (A * list byte).

(** Byte sequences short enough for a message. *)
Definition small (bs : list byte) : Prop := Z.of_nat (length bs) < tooBig.

Definition byteLen (x : Z) : nat := Z.to_nat (Z.log2 x / 8 + 1).

(** [func (state *encoderState) encodeUint(x uint64)] *)
Definition encodeUint (x : Z) : list byte :=
  if x <=? 127 then [byte_of_Z x]
  else byte_of_Z (- Z.of_nat (byteLen x)) :: be_bytes (byteLen x) x.

(** [func (state *decoderState) decodeUint() (x uint64)] *)
Definition decodeUint : Parser Z := fun bs =>
  match bs with
  | [] => None
  | b :: rest =>
      let v := Z_of_byte b in
      if v <=? 127 then Some (v, rest)
      else
        let n := 256 - v in
        if uint64Size <? n then None
        else if Z.of_nat (length rest) <? n then None
        else Some (be_value (take (Z.to_nat n) rest), drop (Z.to_nat n) rest)
  end.

(** [func (state *encoderState) encodeInt(i int64)] *)
Definition encodeInt (i : Z) : list byte :=
  encodeUint (if i <? 0 then Z.lor (Z.shiftl (Z.lnot i) 1) 1 else Z.shiftl i 1).

(** [func (state *decoderState) decodeInt() int64] *)
Definition decodeInt : Parser Z := fun bs =>
  match decodeUint bs with
  | None => None
  | Some (x, rest) =>
      Some (if Z.odd x then Z.lnot (Z.shiftr x 1) else Z.shiftr x 1, rest)
  end.

(** A byte slice or a string: its length, then its bytes. *)
Definition encodeBytes (b : list byte) : list byte :=
  encodeUint (Z.of_nat (length b)) ++ b.

(** Decoding reads the length with [getLength], which refuses a length
    beyond the bytes left or at [tooBig]. *)
Definition decodeBytes : Parser (list byte) := fun bs =>
  match decodeUint bs with
  | None => None
  | Some (n, rest) =>
      if (Z.of_nat (length rest) <? n) || (tooBig <=? n) then None
      else Some (take (Z.to_nat n) rest, drop (Z.to_nat n) rest)
  end.

Definition encodeString (s : string) : list byte :=
  encodeBytes (list_byte_of_string s).

Definition decodeString : Parser string := fun bs =>
  match decodeBytes bs with
  | None => None
  | Some (b, rest) => Some (string_of_list_byte b, rest)
  end.

(** A [[]string]: the count, then the elements.  Every element takes at
    least one byte, and the decoder gives up on a count it cannot meet. *)
Definition encodeStrings (l : list string) : list byte :=
  encodeUint (Z.of_nat (length l)) ++ concat (map encodeString l).

Fixpoint decodeStringsN (n : nat) : Parser (list string) := fun bs =>
  match n with
  | O => Some ([], bs)
  | S n' =>
      match decodeString bs with
      | None => None
      | Some (s, rest) =>
          match decodeStringsN n' rest with
          | None => None
          | Some (l, rest') => Some (s :: l, rest')
          end
      end
  end.

Definition decodeStrings : Parser (list string) := fun bs =>
  match decodeUint bs with
  | None => None
  | Some (n, rest) =>
      if Z.of_nat (length rest) <? n then None
      else decodeStringsN (Z.to_nat n) rest
  end.

(** A [map[string][]string]: the count, then key and element in turn. *)
Definition encodeEntry (kv : string * list string) : list byte :=
  encodeString kv.1 ++ encodeStrings kv.2.

Definition encodeMap (m : gmap string (list string)) : list byte :=
  encodeUint (Z.of_nat (length (map_to_list m)))
    ++ concat (map encodeEntry (map_to_list m)).

(** The decoder sets each pair in the map as soon as it is read, so that a
    failure leaves the pairs read so far.  [fuel] bounds the loop by the
    bytes at hand: a pair takes at least two. *)
Fixpoint decodeEntries (fuel : nat) (n : Z) (m : gmap string (list string))
    (bs : list byte) : gmap string (list string) * option (list byte) :=
  if n <=? 0 then (m, Some bs)
  else
    match fuel with
    | O => (m, None)
    | S fuel' =>
        match decodeString bs with
        | None => (m, None)
        | Some (k, r1) =>
            match decodeStrings r1 with
            | None => (m, None)
            | Some (v, r2) => decodeEntries fuel' (n - 1) (<[k := v]> m) r2
            end
        end
    end.

Definition decodeMap (m : gmap string (list string)) (bs : list byte)
    : gmap string (list string) * option (list byte) :=
  match decodeUint bs with
  | None => (m, None)
  | Some (n, rest) => decodeEntries (length rest) (wrap64 n) m rest
  end.

(** [func (t Time) MarshalBinary() ([]byte, error)] for a time in UTC:
    version 1, eight bytes of seconds, four of nanoseconds, and the zone
    offset -1. *)
Definition MarshalBinary (t : Time) : list byte :=
  [x01] ++ be_bytes 8 (sec t) ++ be_bytes 4 (nsec t) ++ [xff; xff].

(** [func (t *Time) UnmarshalBinary(data []byte) error].  The nanosecond
    bytes are loaded unchecked into the word that also holds flag bits; the
    model keeps the thirty nanosecond bits and refuses a field with the top
    bit set, which would switch the time to its monotonic form. *)
Definition UnmarshalBinary (buf : list byte) : option Time :=
  match buf with
  | [] => None
  | version :: rest =>
      let v := Z_of_byte version in
      if negb ((v =? 1) || (v =? 2)) then None
      else if negb (Z.of_nat (length buf) =? (if v =? 2 then 16 else 15)) then None
      else
        let s := wrap64 (be_value (take 8 rest)) in
        let ns := be_value (take 4 (drop 8 rest)) in
        if 2 ^ 31 <=? ns then None
        else Some (mkTime s (Z.land ns (2 ^ 30 - 1)))
  end.

(** The encoder's field loop: a field that is sent is preceded by its
    distance from the last field sent. *)
Definition sendField (fieldnum : Z) (send : bool) (payload : list byte)
    (st : Z * list byte) : Z * list byte :=
  if send then (fieldnum, st.2 ++ encodeUint (fieldnum - st.1) ++ payload)
  else st.

Definition encodeStruct (c : Cached) : list byte :=
  let st := (-1, []) in
  let st := sendField 0 (negb (Status c =? 0)) (encodeInt (Status c)) st in
  let st := sendField 1 (negb (Z.of_nat (length (Body c)) =? 0)) (encodeBytes (Body c)) st in
  let st := sendField 2 true (encodeMap (Header c)) st in
  let st := sendField 3 (negb (IsZero (ExpireAt c)))
              (encodeBytes (MarshalBinary (ExpireAt c))) st in
  st.2 ++ encodeUint 0.

Definition errTooBig : error := ErrOther "gob: encoder: message too big".
Definition errDecode : error := ErrOther "gob: decoding failed".
Definition errEOF : error := ErrOther "EOF".

(** [func (enc *Encoder) Encode(e any) error] on a fresh encoder. *)
Definition Encode (tid : Z) (c : Cached) : result (list byte) :=
  let payload := encodeInt tid ++ encodeStruct c in
  if tooBig <=? Z.of_nat (length payload) then Err errTooBig
  else Ok (encodeUint (Z.of_nat (length payload)) ++ payload).

Definition zeroCached : Cached := mkCached 0 [] ∅ time.zero.

(** One field of the struct, into the entry being filled. *)
Definition decodeField (f : Z) (c : Cached) (bs : list byte)
    : Cached * option (list byte) :=
  if f =? 0 then
    match decodeInt bs with
    | None => (c, None)
    | Some (v, rest) => (mkCached v (Body c) (Header c) (ExpireAt c), Some rest)
    end
  else if f =? 1 then
    match decodeBytes bs with
    | None => (c, None)
    | Some (b, rest) => (mkCached (Status c) b (Header c) (ExpireAt c), Some rest)
    end
  else if f =? 2 then
    let '(m, r) := decodeMap (Header c) bs in
    (mkCached (Status c) (Body c) m (ExpireAt c), r)
  else
    match decodeBytes bs with
    | None => (c, None)
    | Some (b, rest) =>
        match UnmarshalBinary b with
        | None => (c, None)
        | Some t => (mkCached (Status c) (Body c) (Header c) t, Some rest)
        end
    end.

(** [func (dec *Decoder) decodeStruct]: deltas move forward through the
    four fields, so five rounds reach the closing zero. *)
Fixpoint decodeFields (fuel : nat) (fieldnum : Z) (c : Cached) (bs : list byte)
    : Cached * bool :=
  match fuel with
  | O => (c, false)
  | S fuel' =>
      match decodeUint bs with
      | None => (c, false)
      | Some (delta, rest) =>
          if delta =? 0 then (c, true)
          else if 2 ^ 63 <=? delta then (c, false)
          else if 4 - delta <=? fieldnum then (c, false)
          else
            match decodeField (fieldnum + delta) c rest with
            | (c', Some rest') => decodeFields fuel' (fieldnum + delta) c' rest'
            | (c', None) => (c', false)
            end
      end
  end.

Definition decodeStruct (bs : list byte) : Cached * bool :=
  decodeFields 5 (-1) zeroCached bs.

(** [func (dec *Decoder) Decode(e any) error] on a fresh decoder over
    [data], into a nil [*Cached].  The entry is allocated once the message
    is framed and its type id accepted. *)
Definition Decode (tid : Z) (data : list byte) : DecodeResult :=
  match decodeUint data with
  | None => mkDecodeResult None (Some errEOF)
  | Some (nbytes, rest) =>
      if (tooBig <=? nbytes) || (Z.of_nat (length rest) <? nbytes)
      then mkDecodeResult None (Some errDecode)
      else
        match decodeInt (take (Z.to_nat nbytes) rest) with
        | None => mkDecodeResult None (Some errDecode)
        | Some (id, body) =>
            if id =? tid then
              let '(c, ok) := decodeStruct body in
              mkDecodeResult (Some c) (if ok then None else Some errDecode)
            else mkDecodeResult None (Some errDecode)
        end
  end.

#[export] Instance codec (tid : Z) : Codec := Build_Codec (Encode tid) (Decode tid).

End gob.

(** ** cache.go: the Store interface

    [type Store interface]: a store is a state type with the five
    operations, each returning the state it leaves. *)

Class Store (S : Type) : Type := {
  Store_Get : string -> S -> result (list byte) * S;
  Store_Set : string -> list byte -> S -> option error * S;
  Store_Remove : string -> S -> option error * S;
  Store_Update : string -> list byte -> S -> option error * S;
  Store_Keys : S -> list string * S
}.

(** The calls made on the store, with what they returned, in the order
    they were made. *)
Inductive Call : Type :=
  | CallGet (key : string) (r : result (list byte))
  | CallSet (key : string) (data : list byte) (r : option error)
  | CallRemove (key : string) (r : option error)
  | CallUpdate (key : string) (data : list byte) (r : option error)
  | CallKeys.

(** ** package net/http *)

Module http.

Record Request : Type := mkRequest {
  Method : string;
  RequestURI : string;
  Header : gmap string (list string)
}.

Definition isLower (c : ascii) : bool :=
  (97 <=? Z.of_N (N_of_ascii c)) && (Z.of_N (N_of_ascii c) <=? 122).
Definition isUpper (c : ascii) : bool :=
  (65 <=? Z.of_N (N_of_ascii c)) && (Z.of_N (N_of_ascii c) <=? 90).
Definition isDigit (c : ascii) : bool :=
  (48 <=? Z.of_N (N_of_ascii c)) && (Z.of_N (N_of_ascii c) <=? 57).
Definition toUpper (c : ascii) : ascii := ascii_of_N (N_of_ascii c - 32).
Definition toLower (c : ascii) : ascii := ascii_of_N (N_of_ascii c + 32).

(** [validHeaderFieldByte]: the token characters of RFC 7230. *)
Definition validHeaderFieldByte (c : ascii) : bool :=
  isLower c || isUpper c || isDigit c
  || existsb (Ascii.eqb c) (list_ascii_of_string "!#$%&'*+-.^_`|~").

Fixpoint canonicalCase (upper : bool) (s : string) : string :=
  match s with
  | EmptyString => EmptyString
  | String c s' =>
      let c' := if upper && isLower c then toUpper c
                else if negb upper && isUpper c then toLower c
                else c in
      String c' (canonicalCase (Ascii.eqb c' "-") s')
  end.

(** [textproto.CanonicalMIMEHeaderKey]: a key made of token characters gets
    an upper-case letter first and after each hyphen and lower-case letters
    elsewhere; any other key is returned as it is. *)
Definition CanonicalMIMEHeaderKey (s : string) : string :=
  if forallb validHeaderFieldByte (list_ascii_of_string s)
  then canonicalCase true s else s.

(** [func (h Header) Add(key, value string)] *)
Definition Header_Add (key value : string) (h : gmap string (list string))
    : gmap string (list string) :=
  let k := CanonicalMIMEHeaderKey key in
  <[k := default [] (h !! k) ++ [value]]> h.

(** [func (h Header) Set(key, value string)] *)
Definition Header_Set (key value : string) (h : gmap string (list string))
    : gmap string (list string) :=
  <[CanonicalMIMEHeaderKey key := [value]]> h.

(** [func (h Header) Del(key string)] *)
Definition Header_Del (key : string) (h : gmap string (list string))
    : gmap string (list string) :=
  delete (CanonicalMIMEHeaderKey key) h.

End http.

(** ** package github.com/gin-gonic/gin

    What the handler uses of a [*gin.Context]: the request, the response
    writer, the key/value bag of the context and the abort flag.  The
    handlers that [c.Next()] runs are given by the operations they perform
    on the context. *)

Module gin.

(** A value of type [any] in the bag of the context. *)
Inductive any : Type :=
  | anyNil
  | anyTime (t : Time)
  | anyTimePtr (t : Time)
  | anyString (s : string)
  | anyInt (n : Z).

(** gin's own [responseWriter]: the header map, the status (200 until it
    is set), whether the header went out, and the bytes sent. *)
Record responseWriter : Type := mkResponseWriter {
  header : gmap string (list string);
  status : Z;
  written : bool;
  sent : list byte
}.

(** The interface value held in [c.Writer]: gin's writer, or the
    [wrappedWriter] of [cache.go] around another writer, with the body it
    has recorded ([type wrappedWriter struct]). *)
Inductive ResponseWriter : Type :=
  | ginWriter (w : responseWriter)
  | wrappedWriter (inner : ResponseWriter) (body : list byte).

Fixpoint Header (w : ResponseWriter) : gmap string (list string) :=
  match w with
  | ginWriter w => header w
  | wrappedWriter inner _ => Header inner
  end.

(** The header map is shared: a change through [Header()] reaches the
    writer underneath. *)
Fixpoint updHeader (f : gmap string (list string) -> gmap string (list string))
    (w : ResponseWriter) : ResponseWriter :=
  match w with
  | ginWriter w => ginWriter (mkResponseWriter (f (header w)) (status w) (written w) (sent w))
  | wrappedWriter inner body => wrappedWriter (updHeader f inner) body
  end.

Fixpoint Status (w : ResponseWriter) : Z :=
  match w with
  | ginWriter w => status w
  | wrappedWriter inner _ => Status inner
  end.

(** [func (w *responseWriter) WriteHeader(code int)]: ignored once the
    header went out. *)
Fixpoint WriteHeader (code : Z) (w : ResponseWriter) : ResponseWriter :=
  match w with
  | ginWriter w =>
      if (0 <? code) && negb (status w =? code) && negb (written w)
      then ginWriter (mkResponseWriter (header w) code (written w) (sent w))
      else ginWriter w
  | wrappedWriter inner body => wrappedWriter (WriteHeader code inner) body
  end.

(** [Write]: gin's writer sends the header if it has not and then the
    data; [func (rw *wrappedWriter) Write] forwards the data and, the
    write having succeeded, records it. *)
Fixpoint Write (data : list byte) (w : ResponseWriter) : ResponseWriter :=
  match w with
  | ginWriter w =>
      ginWriter (mkResponseWriter (header w) (status w) true (sent w ++ data))
  | wrappedWriter inner body => wrappedWriter (Write data inner) (body ++ data)
  end.

Record Context : Type := mkContext {
  Request : http.Request;
  Writer : ResponseWriter;
  Keys : gmap string any;
  Aborted : bool
}.

Definition setWriter (w : ResponseWriter) (c : Context) : Context :=
  mkContext (Request c) w (Keys c) (Aborted c).

(** What a handler further down the chain does to the context. *)
Inductive Op : Type :=
  | OpWrite (data : list byte)
  | OpWriteHeader (code : Z)
  | OpHeaderAdd (key value : string)
  | OpHeaderSet (key value : string)
  | OpHeaderDel (key : string)
  | OpSet (key : string) (value : any)
  | OpAbort.

Definition applyOp (c : Context) (op : Op) : Context :=
  match op with
  | OpWrite data => setWriter (Write data (Writer c)) c
  | OpWriteHeader code => setWriter (WriteHeader code (Writer c)) c
  | OpHeaderAdd k v => setWriter (updHeader (http.Header_Add k v) (Writer c)) c
  | OpHeaderSet k v => setWriter (updHeader (http.Header_Set k v) (Writer c)) c
  | OpHeaderDel k => setWriter (updHeader (http.Header_Del k) (Writer c)) c
  | OpSet k v => mkContext (Request c) (Writer c) (<[k := v]> (Keys c)) (Aborted c)
  | OpAbort => mkContext (Request c) (Writer c) (Keys c) true
  end.

(** [func (c *Context) Next()]: runs the handlers that are left, none when
    the context is aborted. *)
Definition Next (downstream : Context -> list Op) (c : Context) : Context :=
  if Aborted c then c else fold_left applyOp (downstream c) c.

(** [func (c *Context) Abort()] *)
Definition Abort (c : Context) : Context :=
  mkContext (Request c) (Writer c) (Keys c) true.

End gin.

(** ** cache.go: the cache and the handler *)

(** [type Options struct]; the [Store] field is the store the sections
    below are parametrised by.  [Headers] is [None] for a nil slice. *)
Record Options : Type := mkOptions {
  Expire : Duration;
  Headers : option (list string);
  DoNotUseAbort : bool
}.

(** [func (o *Options) init()] *)
Definition Options_init (o : Options) : Options :=
  match Headers o with
  | None =>
      mkOptions (Expire o)
        (Some ["User-Agent"; "Accept"; "Accept-Encoding"; "Accept-Language";
               "Cookie"; "User-Agent"])
        (DoNotUseAbort o)
  | Some _ => o
  end.

(** The state a request runs in: the context of the request, the state of
    the store and the calls made on it so far. *)
Record World (S : Type) : Type := mkWorld {
  ctx : gin.Context;
  store : S;
  calls : list Call
}.
Arguments mkWorld {S} ctx store calls.
Arguments ctx {S} w.
Arguments store {S} w.
Arguments calls {S} w.

(** A computation returns a value and a state, or panics in a state. *)
Inductive Outcome (W A : Type) : Type :=
  | Return (a : A) (w : W)
  | Panic (w : W).
Arguments Return {W A} a w.
Arguments Panic {W A} w.

Definition M (W A : Type) : Type := W -> Outcome W A.

#[export] Instance M_ret {W} : MRet (M W) := fun A a w => Return a w.

#[export] Instance M_bind {W} : MBind (M W) := fun A B f m w =>
  match m w with
  | Return a w' => f a w'
  | Panic w' => Panic w'
  end.

Definition panic {W A} : M W A := fun w => Panic w.

Section Cache.

Context {S : Type} {St : Store S} {Cd : Codec}.

(** The handlers after this one. *)
Variable downstream : gin.Context -> list gin.Op.

Definition callGet (key : string) : M (World S) (result (list byte)) := fun w =>
  let '(r, s) := Store_Get key (store w) in
  Return r (mkWorld (ctx w) s (calls w ++ [CallGet key r])).

Definition callSet (key : string) (data : list byte) : M (World S) (option error) := fun w =>
  let '(r, s) := Store_Set key data (store w) in
  Return r (mkWorld (ctx w) s (calls w ++ [CallSet key data r])).

Definition callRemove (key : string) : M (World S) (option error) := fun w =>
  let '(r, s) := Store_Remove key (store w) in
  Return r (mkWorld (ctx w) s (calls w ++ [CallRemove key r])).

Definition callUpdate (key : string) (data : list byte) : M (World S) (option error) := fun w =>
  let '(r, s) := Store_Update key data (store w) in
  Return r (mkWorld (ctx w) s (calls w ++ [CallUpdate key data r])).

(** [func (c *Cache) Get(key string)], returning the entry pointer and the error, with [now] the
    reading of [time.Now()].  The error of [dec.Decode] is dropped and
    [cch] is dereferenced as the decoder left it: a nil [cch] panics. *)
Definition Cache_Get (key : string) (now : Time)
    : M (World S) (option Cached * option error) :=
  r ← callGet key;
  match r with
  | Ok data =>
      match ptr (Decode data) with
      | None => panic
      | Some cch =>
          if negb (UnixNano (ExpireAt cch) =? 0) && Before (ExpireAt cch) now
          then _ ← callRemove key; mret (None, None)
          else mret (Some cch, None)
      end
  | Err e => mret (None, Some e)
  end.

(** [panicIf] around the encoding of the entry in [Set] and [Update] *)
Definition encodeOrPanic (cch : Cached) : M (World S) (list byte) :=
  match Encode cch with
  | Ok b => mret b
  | Err _ => panic
  end.

(** [func (c *Cache) Set(key string, cch *Cached) error] *)
Definition Cache_Set (key : string) (cch : Cached) : M (World S) (option error) :=
  b ← encodeOrPanic cch;
  callSet key b.

(** [func (c *Cache) Update(key string, cch *Cached) error] *)
Definition Cache_Update (key : string) (cch : Cached) : M (World S) (option error) :=
  b ← encodeOrPanic cch;
  callUpdate key b.

Definition getCtx : M (World S) gin.Context := fun w => Return (ctx w) w.

Definition modCtx (f : gin.Context -> gin.Context) : M (World S) unit := fun w =>
  Return tt (mkWorld (f (ctx w)) (store w) (calls w)).

Definition modWriter (f : gin.ResponseWriter -> gin.ResponseWriter) : M (World S) unit :=
  modCtx (fun c => gin.setWriter (f (gin.Writer c)) c).

(** The string the key is the digest of: the request URI, then name and
    joined values of every listed header the request carries. *)
Definition tohash (headers : list string) (req : http.Request) : string :=
  fold_left
    (fun acc k =>
       match http.Header req !! k with
       | Some v => acc +:+ k +:+ String.concat "" v
       | None => acc
       end)
    headers (http.RequestURI req).

Definition cacheKey (opts : Options) (req : http.Request) : string :=
  KEY_PREFIX +:+ md5String (tohash (default [] (Headers opts)) req).

(** The [ExpireAt] of the entry the miss path stores. *)
Definition entryExpireAt (opts : Options) (timeNow : Time) : Time :=
  if Expire opts =? 0 then time.zero
  else getExpiresAtTime timeNow (Expire opts).

(** The wrapper taken off again, and what it recorded. *)
Definition unwrap (w : gin.ResponseWriter) : gin.ResponseWriter :=
  match w with
  | gin.wrappedWriter inner _ => inner
  | gin.ginWriter _ => w
  end.

Definition recorded (w : gin.ResponseWriter) : list byte :=
  match w with
  | gin.wrappedWriter _ body => body
  | gin.ginWriter _ => []
  end.

(** The cache miss branch of the handler. *)
Definition onMiss (opts : Options) (key : string) (timeNow : Time) : M (World S) unit :=
  _ ← modWriter (fun w => gin.wrappedWriter w []);
  _ ← modWriter (gin.updHeader (http.Header_Add "Etag" key));
  _ ← modWriter (gin.updHeader (http.Header_Add "X-Gin-Cache-Hit" "MISS"));
  _ ← modWriter (gin.updHeader (http.Header_Add "Cache-Control"
                    (getCacheControl (maxAgeOf timeNow (Expire opts)))));
  _ ← modCtx (gin.Next downstream);
  c ← getCtx;
  let rw := gin.Writer c in
  _ ← modWriter unwrap;
  _ ← Cache_Set key
        (mkCached (gin.Status rw) (recorded rw) (gin.Header rw)
                  (entryExpireAt opts timeNow));
  mret tt.

(** The cache found branch of the handler. *)
Definition onHit (opts : Options) (cch : Cached) (timeNow : Time) : M (World S) unit :=
  _ ← modWriter (gin.WriteHeader (Status cch));
  _ ← modWriter (gin.updHeader (fun h =>
         fold_left
           (fun h kv => fold_left (fun h v => http.Header_Add kv.1 v h) kv.2 h)
           (map_to_list (Header cch)) h));
  _ ← modWriter (gin.updHeader (http.Header_Set "X-Gin-Cache-Hit" "HIT"));
  _ ← modWriter (gin.updHeader (http.Header_Set "Cache-Control"
                    (getCacheControl (maxAgeOf timeNow (Expire opts)))));
  _ ← modWriter (gin.Write (Body cch));
  if DoNotUseAbort opts then mret tt else modCtx gin.Abort.

(** The closure [New] returns, for the options [opts] after [init]; [now]
    is what [time.Now()] reads while the request is handled. *)
Definition handler (opts : Options) (now : Time) : M (World S) unit :=
  c ← getCtx;
  if negb (String.eqb (http.Method (gin.Request c)) "GET") then
    modCtx (gin.Next downstream)
  else
    let key := cacheKey opts (gin.Request c) in
    match gin.Keys c !! "TimeNow" with
    | Some (gin.anyTime timeNow) =>
        r ← Cache_Get key now;
        match r.1 with
        | None => onMiss opts key timeNow
        | Some cch => onHit opts cch timeNow
        end
    | _ => panic
    end.

(** [func New(o ...Options) gin.HandlerFunc]: the first of the options
    given, or [Expire: 0] on the default store. *)
Definition New (o : list Options) : Time -> M (World S) unit :=
  let opts := match o with
              | i :: _ => i
              | [] => mkOptions 0 None false
              end in
  handler (Options_init opts).

End Cache.

(** ** Stores *)

(** Modelled from the spec: the in-memory store of [NewInMemory()], whose
    source is not part of [cache.go].  It is a map from keys to bytes:
    [get] fails with [NotFound] on an absent key, [set] fails with
    [AlreadyExists] on a present one, [update] fails with [NotFound] on an
    absent one, [remove] deletes the key, [keys] lists the keys. *)
(** The entries a Go program can hold: a status that fits [int], an expiry
    whose seconds fit [int64] and whose nanoseconds are below a second. *)
Definition wfCached (c : Cached) : Prop :=
  isInt64 (Status c) /\ isInt64 (sec (ExpireAt c)) /\ norm (ExpireAt c).

#[export] Instance InMemory : Store (gmap string (list byte)) := {|
  Store_Get k m :=
    (match m !! k with Some v => Ok v | None => Err ErrNotFound end, m);
  Store_Set k v m :=
    match m !! k with
    | Some _ => (Some ErrAlreadyExists, m)
    | None => (None, <[k := v]> m)
    end;
  Store_Remove k m := (None, delete k m);
  Store_Update k v m :=
    match m !! k with
    | Some _ => (None, <[k := v]> m)
    | None => (Some ErrNotFound, m)
    end;
  Store_Keys m := (map fst (map_to_list m), m)
|}.

(** A read-only store (a replica that takes no writes): [get] and [keys]
    answer from the map, every write fails. *)
Definition errReadOnly : error := ErrOther "store is read-only".

Definition ReadOnly : Store (gmap string (list byte)) := {|
  Store_Get k m :=
    (match m !! k with Some v => Ok v | None => Err ErrNotFound end, m);
  Store_Set _ _ m := (Some errReadOnly, m);
  Store_Remove _ m := (Some errReadOnly, m);
  Store_Update _ _ m := (Some errReadOnly, m);
  Store_Keys m := (map fst (map_to_list m), m)
|}.

(** The context the miss branch hands back: the writer wrapped, the three
    headers added, the handlers further down run. *)
Definition missContext (downstream : gin.Context -> list gin.Op)
    (opts : Options) (key : string) (timeNow : Time) (c : gin.Context)
    : gin.Context :=
  let w := gin.wrappedWriter (gin.Writer c) [] in
  let w := gin.updHeader (http.Header_Add "Etag" key) w in
  let w := gin.updHeader (http.Header_Add "X-Gin-Cache-Hit" "MISS") w in
  let w := gin.updHeader (http.Header_Add "Cache-Control"
             (getCacheControl (maxAgeOf timeNow (Expire opts)))) w in
  gin.Next downstream (gin.setWriter w c).

(** The entry the miss branch builds from the wrapped writer. *)
Definition capturedEntry (opts : Options) (timeNow : Time) (c : gin.Context)
    : Cached :=
  mkCached (gin.Status (gin.Writer c)) (recorded (gin.Writer c))
           (gin.Header (gin.Writer c)) (entryExpireAt opts timeNow).

(** What the pipeline sees of a handler that ran: the context it left, or
    that it panicked. *)
Definition observed {S : Type} (o : Outcome (World S) unit) : option gin.Context :=
  match o with
  | Return _ w => Some (ctx w)
  | Panic _ => None
  end.

(** The calls on the store a computation made. *)
Definition callsOf {S A : Type} (o : Outcome (World S) A) : list Call :=
  match o with
  | Return _ w => calls w
  | Panic w => calls w
  end.

(** ** Sample data

    The request [GET /a?x=1] with [Accept: text/html], a handler further
    down that answers 200 [hello] as [text/plain], and instants around
    2026-01-01T00:00:00Z (63902822400 seconds after the zero time). *)

Definition sampleRequest (method : string) : http.Request :=
  http.mkRequest method "/a?x=1" {["Accept" := ["text/html"]]}.

Definition sampleKey : string := "gin:cache:162fbab3c8bb7b0e3d5dbdacd51028bd".

Definition sampleContext (method : string) (keys : gmap string gin.any)
    : gin.Context :=
  gin.mkContext (sampleRequest method)
    (gin.ginWriter (gin.mkResponseWriter ∅ 200 false [])) keys false.

Definition sampleDownstream (c : gin.Context) : list gin.Op :=
  [gin.OpHeaderSet "Content-Type" "text/plain"; gin.OpWriteHeader 200;
   gin.OpWrite (list_byte_of_string "hello")].

Definition sampleEntry (expireAt : Time) : Cached :=
  mkCached 200 (list_byte_of_string "hello")
    {["Content-Type" := ["text/plain"]; "Vary" := ["Accept"; "Cookie"]]} expireAt.

(** The bytes of an entry under the gob codec with [Cached] as type 65. *)
Definition encoded (c : Cached) : list byte :=
  match gob.Encode 65 c with
  | Ok b => b
  | Err _ => []
  end.

(** A message of type 65 that carries the status 200 and the expiry
    2026-01-01T00:01:00Z and then stops short of the zero that closes the
    struct. *)
Definition truncatedEntry : list byte :=
  gob.encodeUint 23 ++ gob.encodeInt 65
    ++ gob.encodeUint 1 ++ gob.encodeInt 200
    ++ gob.encodeUint 3 ++ gob.encodeBytes (gob.MarshalBinary (mkTime 63902822460 0)).

Definition jan2026 : Time := mkTime 63902822400 0.

Definition sampleKeys : gmap string gin.any := {["TimeNow" := gin.anyTime jan2026]}.

Definition sampleOptions (expire : Duration) : Options :=
  Options_init (mkOptions expire None false).

Definition sampleStore (data : list byte) : gmap string (list byte) :=
  {[sampleKey := data]}.

Definition sampleWorld (method : string) (keys : gmap string gin.any)
    (st : gmap string (list byte)) : World (gmap string (list byte)) :=
  mkWorld (sampleContext method keys) st [].

(** The world a second request of the same kind finds: a fresh context on
    the store the first one left. *)
Definition afterwards (o : Outcome (World (gmap string (list byte))) unit)
    : World (gmap string (list byte)) :=
  match o with
  | Return _ w => sampleWorld "GET" sampleKeys (store w)
  | Panic w => sampleWorld "GET" sampleKeys (store w)
  end.

(** The cache status a handler run put on the response. *)
Definition cacheStatus (o : Outcome (World (gmap string (list byte))) unit)
    : option (list string) :=
  match o with
  | Return _ w => gin.Header (gin.Writer (ctx w)) !! "X-Gin-Cache-Hit"
  | Panic _ => None
  end.

(** A store that cannot be reached (a key-value service that is down):
    every operation fails. *)
Definition errUnavailable : error := ErrOther "store unavailable".

Definition Unavailable : Store unit := {|
  Store_Get _ s := (Err errUnavailable, s);
  Store_Set _ _ s := (Some errUnavailable, s);
  Store_Remove _ s := (Some errUnavailable, s);
  Store_Update _ _ s := (Some errUnavailable, s);
  Store_Keys s := ([], s)
|}.

(** An entry that expires at 2026-01-01T00:01:00Z. *)
Definition freshEntry : Cached := sampleEntry (mkTime 63902822460 0).

(** ** Further vocabulary for the properties *)


(** The characters [hex.EncodeToString] produces. *)
Definition isHexDigit (c : ascii) : bool :=
  existsb (Ascii.eqb c) (list_ascii_of_string "0123456789abcdef").

(** The part of the hashed string a listed header contributes. *)
Definition headerPart (req : http.Request) (k : string) : string :=
  match http.Header req !! k with
  | Some v => k +:+ String.concat "" v
  | None => ""
  end.

(** Nanoseconds from the zero time to 1970-01-01T00:00:00Z. *)
Definition unixEpochAbs : Z := 62135596800 * 1000000000.

(** * Properties of the expiry policy *)

Section time_facts.

Lemma wrap64_id z : isInt64 z -> wrap64 z = z.
Proof.
  unfold isInt64, minInt64, maxInt64, wrap64. intros H.
  rewrite Z.mod_small; lia.
Qed.

Lemma wrap64_plus_l x y : wrap64 (wrap64 x + y) = wrap64 (x + y).
Proof.
  unfold wrap64.
  replace (((x + 2 ^ 63) mod 2 ^ 64 - 2 ^ 63) + y + 2 ^ 63)
    with ((x + 2 ^ 63) mod 2 ^ 64 + y) by lia.
  rewrite Zplus_mod_idemp_l. f_equal. f_equal. lia.
Qed.

Lemma wrap64_mul_l x y : wrap64 (wrap64 x * y) = wrap64 (x * y).
Proof.
  unfold wrap64. f_equal.
  replace (((x + 2 ^ 63) mod 2 ^ 64 - 2 ^ 63) * y + 2 ^ 63)
    with ((x + 2 ^ 63) mod 2 ^ 64 * y + (2 ^ 63 - 2 ^ 63 * y)) by lia.
  rewrite <- Zplus_mod_idemp_l, Zmult_mod_idemp_l, Zplus_mod_idemp_l.
  f_equal. lia.
Qed.

Lemma addSec_exact s d :
  isInt64 s -> isInt64 (s + d) -> time.addSec s d = s + d.
Proof.
  intros Hs Hsd. unfold time.addSec. rewrite (wrap64_id _ Hsd).
  destruct (Z.ltb_spec s (s + d)), (Z.ltb_spec 0 d); simpl; lia.
Qed.

Lemma time_eq t u : sec t = sec u -> nsec t = nsec u -> t = u.
Proof. destruct t, u; simpl; congruence. Qed.

Lemma norm_abs_inj t u : norm t -> norm u -> time.abs t = time.abs u -> t = u.
Proof.
  unfold norm, time.abs. intros Ht Hu H. apply time_eq; nia.
Qed.

Lemma eqb_eq t u : time.eqb t u = true <-> t = u.
Proof.
  unfold time.eqb. rewrite andb_true_iff, !Z.eqb_eq. split.
  - intros [? ?]. by apply time_eq.
  - by intros ->.
Qed.

Lemma Before_abs t u :
  norm t -> norm u -> time.Before t u = true <-> time.abs t < time.abs u.
Proof.
  unfold norm, time.Before, time.abs. intros Ht Hu.
  rewrite orb_true_iff, andb_true_iff, !Z.ltb_lt, Z.eqb_eq. nia.
Qed.

Lemma quot_rem_bounds d :
  d = 1000000000 * (d ÷ 1000000000) + Z.rem d 1000000000 /\
  - 1000000000 < Z.rem d 1000000000 < 1000000000 /\
  (0 <= d -> 0 <= Z.rem d 1000000000) /\
  (d <= 0 -> Z.rem d 1000000000 <= 0).
Proof.
  split; [apply Z.quot_rem'|].
  destruct (Z.lt_trichotomy d 0) as [H|[->|H]].
  - pose proof (Z.rem_bound_pos_neg d 1000000000 ltac:(lia) ltac:(lia)). lia.
  - rewrite Z.rem_0_l by lia. lia.
  - pose proof (Z.rem_bound_pos d 1000000000 ltac:(lia) ltac:(lia)). lia.
Qed.

(** Away from the ends of [int64], [Add] adds on the absolute time and
    keeps the nanosecond field in range. *)
Lemma Add_spec t d :
  norm t -> - 2 ^ 62 - 2 ^ 35 <= sec t <= 2 ^ 62 + 2 ^ 35 -> isInt64 d ->
  norm (Add t d) /\ time.abs (Add t d) = time.abs t + d.
Proof.
  unfold norm, isInt64, minInt64, maxInt64. intros Ht Hs Hd.
  destruct (quot_rem_bounds d) as (Hqr & Hr & Hpos & Hneg).
  assert (Hq : - 2 ^ 34 <= d ÷ 1000000000 <= 2 ^ 34) by lia.
  unfold Add, time.abs.
  destruct (Z.leb_spec 1000000000 (nsec t + Z.rem d 1000000000));
    [|destruct (Z.ltb_spec (nsec t + Z.rem d 1000000000) 0)];
    simpl; rewrite addSec_exact;
    unfold isInt64, minInt64, maxInt64; lia.
Qed.

Lemma valid_norm t : valid t -> norm t.
Proof. by intros [? ?]. Qed.

Lemma Add_zero t : norm t -> isInt64 (sec t) -> Add t 0 = t.
Proof.
  unfold norm. intros Ht Hs. unfold Add.
  change (0 ÷ 1000000000) with 0. change (Z.rem 0 1000000000) with 0.
  rewrite Z.add_0_r.
  destruct (Z.leb_spec 1000000000 (nsec t)); [lia|].
  destruct (Z.ltb_spec (nsec t) 0); [lia|].
  rewrite addSec_exact by (rewrite ?Z.add_0_r; done).
  rewrite Z.add_0_r. by destruct t.
Qed.

(** [Sub] returns the difference of the absolute times when that fits a
    [Duration]. *)
Lemma Sub_spec t u :
  norm t -> norm u -> - 2 ^ 62 - 2 ^ 35 <= sec u <= 2 ^ 62 + 2 ^ 35 ->
  isInt64 (time.abs t - time.abs u) ->
  Sub t u = time.abs t - time.abs u.
Proof.
  intros Ht Hu Hs Hd. unfold Sub.
  assert (Hw : wrap64 (wrap64 (wrap64 (sec t - sec u) * Second)
                       + (nsec t - nsec u)) = time.abs t - time.abs u).
  { rewrite wrap64_mul_l, wrap64_plus_l. rewrite <- (wrap64_id _ Hd).
    f_equal. unfold time.abs, Second. lia. }
  rewrite Hw.
  destruct (Add_spec u (time.abs t - time.abs u) Hu Hs Hd) as [Hn Ha].
  assert (Add u (time.abs t - time.abs u) = t) as ->.
  { apply norm_abs_inj; [done..|lia]. }
  unfold Equal. by rewrite (proj2 (eqb_eq t t) eq_refl).
Qed.

Section bucket.

Variables (t : Time) (d : Duration).
Hypothesis Ht : valid t.
Hypothesis Hd : 0 < d <= maxInt64.

Lemma rem_bound : 0 <= time.abs t mod d < d.
Proof. apply Z.mod_pos_bound; lia. Qed.

Lemma Truncate_spec :
  norm (Truncate t d) /\ time.abs (Truncate t d) = d * (time.abs t / d).
Proof.
  destruct Ht as [Hn Hs]. unfold Truncate. pose proof rem_bound.
  destruct (Z.leb_spec d 0); [lia|].
  destruct (Add_spec t (- (time.abs t mod d))) as [Hn' Ha];
    [done | lia | unfold isInt64, minInt64, maxInt64 in *; lia |].
  split; [done|]. rewrite Ha.
  pose proof (Z.div_mod (time.abs t) d ltac:(lia)). lia.
Qed.

Lemma Truncate_sec :
  - 2 ^ 62 - 2 ^ 35 <= sec (Truncate t d) <= 2 ^ 62 + 2 ^ 35.
Proof.
  destruct Truncate_spec as [Hn Ha]. destruct Ht as [Hn0 Hs].
  pose proof rem_bound.
  pose proof (Z.div_mod (time.abs t) d ltac:(lia)) as Hdm.
  unfold norm, time.abs, maxInt64 in *. lia.
Qed.

(** The bucket boundary is the next multiple of [d] strictly after the
    multiple at or below [t]. *)
Lemma roundTimeUp_spec :
  norm (roundTimeUp t d) /\
  time.abs (roundTimeUp t d) = d * (time.abs t / d) + d.
Proof.
  destruct Truncate_spec as [Hn Ha]. unfold roundTimeUp.
  destruct (Add_spec (Truncate t d) d Hn Truncate_sec) as [Hn' Ha'].
  { unfold isInt64, minInt64, maxInt64 in *. lia. }
  split; [done|]. lia.
Qed.

Lemma getTimeDiff_spec : getTimeDiff t d = d - time.abs t mod d.
Proof.
  destruct roundTimeUp_spec as [Hn Ha]. destruct Ht as [Hn0 Hs].
  pose proof rem_bound.
  pose proof (Z.div_mod (time.abs t) d ltac:(lia)) as Hdm.
  unfold getTimeDiff. rewrite Sub_spec; [lia | done | done | lia |].
  unfold isInt64, minInt64, maxInt64 in *. lia.
Qed.

End bucket.

(** With a zero duration nothing is rounded and no window remains. *)
Lemma roundTimeUp_zero t : valid t -> roundTimeUp t 0 = t.
Proof.
  intros [Hn Hs]. unfold roundTimeUp, Truncate. simpl.
  apply Add_zero; [done|]. unfold isInt64, minInt64, maxInt64. lia.
Qed.

Lemma getTimeDiff_zero t : valid t -> getTimeDiff t 0 = 0.
Proof.
  intros Hv. unfold getTimeDiff. rewrite roundTimeUp_zero by done.
  destruct Hv as [Hn Hs].
  rewrite Sub_spec; [lia | done | done | lia |].
  unfold isInt64, minInt64, maxInt64. lia.
Qed.

End time_facts.




(** ** The bucket boundary and the remaining window *)

(** C4, as amended: for every instant [now] in range and every duration
    [D > 0], the bucket boundary is [now] truncated down to a multiple of
    [D] since the zero time plus [D], the remaining window is the boundary
    minus [now], and it lies in the half-open interval (0, D]: it is never
    zero, and it is the whole of [D] exactly when [now] is on a boundary. *)
Theorem C4_remaining_window_range (now : Time) (D : Duration) :
  valid now -> 0 < D <= maxInt64 ->
  time.abs (getExpiresAtTime now D) = D * (time.abs now / D) + D /\
  getTimeDiff now D = time.abs (getExpiresAtTime now D) - time.abs now /\
  0 < getTimeDiff now D <= D /\
  (getTimeDiff now D = D <-> time.abs now mod D = 0).
Proof.
  intros Hv HD.
  destruct (roundTimeUp_spec now D Hv HD) as [_ Ha].
  pose proof (getTimeDiff_spec now D Hv HD) as Hdiff.
  pose proof (rem_bound now D HD) as Hr.
  pose proof (Z.div_mod (time.abs now) D ltac:(lia)) as Hdm.
  unfold getExpiresAtTime. rewrite Ha, Hdiff.
  repeat split; lia.
Qed.

Lemma C4_remaining_window_range_witness :
  time.abs (getExpiresAtTime (mkTime 63902822417 250000000) (60 * Second))
    = (60 * Second) * (time.abs (mkTime 63902822417 250000000) / (60 * Second))
      + 60 * Second /\
  getTimeDiff (mkTime 63902822417 250000000) (60 * Second)
    = time.abs (getExpiresAtTime (mkTime 63902822417 250000000) (60 * Second))
      - time.abs (mkTime 63902822417 250000000) /\
  0 < getTimeDiff (mkTime 63902822417 250000000) (60 * Second) <= 60 * Second /\
  (getTimeDiff (mkTime 63902822417 250000000) (60 * Second) = 60 * Second
   <-> time.abs (mkTime 63902822417 250000000) mod (60 * Second) = 0).
Proof.
  apply (C4_remaining_window_range (mkTime 63902822417 250000000) (60 * Second)).
  - unfold valid; simpl; lia.
  - unfold Second, maxInt64; lia.
Defined.

(** C4 as stated fails on a bucket boundary: at 2026-01-01T00:00:00Z, a
    multiple of 60s since the zero time, the remaining window of a 60s
    duration is the full 60s, which is not strictly below the duration. *)
Lemma C4_window_is_full_on_boundary :
  time.abs (mkTime 63902822400 0) mod (60 * Second) = 0 /\
  getTimeDiff (mkTime 63902822400 0) (60 * Second) = 60 * Second /\
  ~ (0 <= getTimeDiff (mkTime 63902822400 0) (60 * Second) < 60 * Second).
Proof.
  assert (H : getTimeDiff (mkTime 63902822400 0) (60 * Second) = 60 * Second)
    by (vm_compute; reflexivity).
  split; [vm_compute; reflexivity|]. split; [exact H|]. rewrite H. lia.
Qed.

(** C6: for every duration [D > 0] and every two instants of which the
    later one is still before the bucket boundary of the earlier one,
    [getExpiresAtTime] gives both the same expiration instant. *)
Theorem C6_same_window_same_boundary (t1 t2 : Time) (D : Duration) :
  valid t1 -> valid t2 -> 0 < D <= maxInt64 ->
  Before t2 t1 = false ->
  Before t2 (getExpiresAtTime t1 D) = true ->
  getExpiresAtTime t2 D = getExpiresAtTime t1 D.
Proof.
  intros H1 H2 HD Hle Hlt. unfold getExpiresAtTime in *.
  destruct (roundTimeUp_spec t1 D H1 HD) as [Hn1 Ha1].
  destruct (roundTimeUp_spec t2 D H2 HD) as [Hn2 Ha2].
  apply (Before_abs _ _ (valid_norm _ H2) Hn1) in Hlt.
  assert (Hge : time.abs t1 <= time.abs t2).
  { destruct (Z.lt_ge_cases (time.abs t2) (time.abs t1)) as [Hc|Hc]; [|lia].
    apply (Before_abs _ _ (valid_norm _ H2) (valid_norm _ H1)) in Hc. congruence. }
  pose proof (Z.div_mod (time.abs t1) D ltac:(lia)) as Hdm.
  pose proof (rem_bound t1 D HD) as Hr.
  assert (Hq : time.abs t2 / D = time.abs t1 / D).
  { symmetry. apply (Z.div_unique _ _ _ (time.abs t2 - D * (time.abs t1 / D))); lia. }
  apply norm_abs_inj; [done..|]. rewrite Ha1, Ha2, Hq. done.
Qed.

Lemma C6_same_window_same_boundary_witness :
  getExpiresAtTime (mkTime 63902822415 0) (60 * Second)
  = getExpiresAtTime (mkTime 63902822410 0) (60 * Second).
Proof.
  apply (C6_same_window_same_boundary (mkTime 63902822410 0) (mkTime 63902822415 0)).
  - unfold valid; simpl; lia.
  - unfold valid; simpl; lia.
  - unfold Second, maxInt64; lia.
  - vm_compute; reflexivity.
  - vm_compute; reflexivity.
Defined.

(** ** The Cache-Control header *)

Lemma lastChar_app s a t : lastChar (s +:+ String a t) = lastChar (String a t).
Proof.
  induction s as [|c s IH]; [done|].
  change (String c s +:+ String a t) with (String c (s +:+ String a t)).
  cbn [lastChar]. rewrite IH.
  destruct s; reflexivity.
Qed.

Lemma public_is_not_no_cache s :
  "max-age=" +:+ s +:+ ", public"
  <> "max-age=0, no-cache, no-store, must-revalidate".
Proof.
  intros H. apply (f_equal lastChar) in H.
  change ("max-age=" +:+ s +:+ ", public")
    with (("max-age=" +:+ s) +:+ ", public") in H.
  rewrite lastChar_app in H. vm_compute in H. discriminate.
Qed.

(** C5, as amended: the header is the no-cache directive exactly when the
    remaining window counts zero whole seconds, which is the case for a
    disabled TTL (duration 0) and also less than a second before the bucket
    boundary of an enabled one; otherwise it is [max-age=<seconds>, public]
    with the remaining window floored to seconds. *)
Theorem C5_cache_control_by_whole_seconds (now : Time) (D : Duration) :
  valid now -> 0 <= D <= maxInt64 ->
  0 <= getTimeDiff now D /\
  (D = 0 -> getTimeDiff now D = 0) /\
  (getCacheControl (maxAgeOf now D)
     = "max-age=0, no-cache, no-store, must-revalidate"
   <-> getTimeDiff now D < 1000000000) /\
  (1000000000 <= getTimeDiff now D ->
   getCacheControl (maxAgeOf now D)
     = "max-age=" +:+ FormatInt10 (getTimeDiff now D / 1000000000) +:+ ", public").
Proof.
  intros Hv HD.
  assert (Hw : 0 <= getTimeDiff now D /\ (D = 0 -> getTimeDiff now D = 0)).
  { destruct (Z.eq_dec D 0) as [->|Hne].
    - rewrite getTimeDiff_zero by done. lia.
    - pose proof (getTimeDiff_spec now D Hv ltac:(lia)).
      pose proof (rem_bound now D ltac:(lia)). lia. }
  destruct Hw as [Hw0 Hz]. split; [done|]. split; [done|].
  unfold maxAgeOf, Nanoseconds, getCacheControl.
  rewrite Z.quot_div_nonneg by lia.
  destruct (Z.eqb_spec (getTimeDiff now D / 1000000000) 0) as [He|Hne].
  - assert (getTimeDiff now D < 1000000000).
    { apply Z.div_small_iff in He; lia. }
    split; [done|lia].
  - assert (1000000000 <= getTimeDiff now D).
    { destruct (Z.lt_ge_cases (getTimeDiff now D) 1000000000) as [Hc|Hc]; [|done].
      rewrite Z.div_small in Hne by lia. done. }
    split; [|done]. split; [|lia].
    intros Heq. by apply public_is_not_no_cache in Heq.
Qed.

Lemma C5_cache_control_by_whole_seconds_witness :
  0 <= getTimeDiff (mkTime 63902822417 250000000) (60 * Second) /\
  (60 * Second = 0 -> getTimeDiff (mkTime 63902822417 250000000) (60 * Second) = 0) /\
  (getCacheControl (maxAgeOf (mkTime 63902822417 250000000) (60 * Second))
     = "max-age=0, no-cache, no-store, must-revalidate"
   <-> getTimeDiff (mkTime 63902822417 250000000) (60 * Second) < 1000000000) /\
  (1000000000 <= getTimeDiff (mkTime 63902822417 250000000) (60 * Second) ->
   getCacheControl (maxAgeOf (mkTime 63902822417 250000000) (60 * Second))
     = "max-age="
       +:+ FormatInt10 (getTimeDiff (mkTime 63902822417 250000000) (60 * Second)
                        / 1000000000)
       +:+ ", public").
Proof.
  apply (C5_cache_control_by_whole_seconds (mkTime 63902822417 250000000) (60 * Second)).
  - unfold valid; simpl; lia.
  - unfold Second, maxInt64; lia.
Defined.

(** C5 as stated fails with the TTL enabled: with a duration of one second
    and a reference time half a second before the boundary the header is the
    no-cache directive, not [max-age=<seconds>, public]. *)
Lemma C5_no_cache_with_ttl_enabled :
  1 * Second <> 0 /\
  getCacheControl (maxAgeOf (mkTime 63902822400 500000000) (1 * Second))
  = "max-age=0, no-cache, no-store, must-revalidate".
Proof. split; [discriminate|vm_compute; reflexivity]. Qed.


(** * Properties of the cache and of the handler *)

Section cache_facts.

Context {S : Type} {St : Store S} {Cd : Codec}.
Variable downstream : gin.Context -> list gin.Op.

(** [Get] on a stored byte sequence for which the decoder leaves an entry:
    the entry is judged by its expiry alone. *)
Lemma Cache_Get_decoded key now (w : World S) data s1 cch :
  Store_Get key (store w) = (Ok data, s1) ->
  ptr (Decode data) = Some cch ->
  Cache_Get key now w =
    if negb (UnixNano (ExpireAt cch) =? 0) && Before (ExpireAt cch) now
    then Return (None, None)
           (mkWorld (ctx w) (Store_Remove key s1).2
              (calls w ++ [CallGet key (Ok data);
                           CallRemove key (Store_Remove key s1).1]))
    else Return (Some cch, None)
           (mkWorld (ctx w) s1 (calls w ++ [CallGet key (Ok data)])).
Proof.
  intros Hget Hdec.
  unfold Cache_Get, callGet, callRemove, mbind, M_bind, mret, M_ret.
  rewrite Hget. cbn. rewrite Hdec.
  destruct (negb (UnixNano (ExpireAt cch) =? 0) && Before (ExpireAt cch) now);
    [|done].
  cbn. destruct (Store_Remove key s1) as [r s2]. cbn.
  by rewrite <- app_assoc.
Qed.

(** [Get] does not touch the context of the request. *)
Lemma Cache_Get_ctx key now (w w' : World S) r :
  Cache_Get key now w = Return r w' -> ctx w' = ctx w.
Proof.
  unfold Cache_Get, callGet, callRemove, mbind, M_bind, mret, M_ret, panic.
  destruct (Store_Get key (store w)) as [[data|e] s1]; cbn.
  - destruct (ptr (Decode data)) as [cch|]; [|done].
    destruct (negb (UnixNano (ExpireAt cch) =? 0) && Before (ExpireAt cch) now); cbn.
    + destruct (Store_Remove key s1). cbn. by intros [= _ <-].
    + by intros [= _ <-].
  - by intros [= _ <-].
Qed.

Lemma entryExpireAt_disabled opts timeNow :
  Expire opts = 0 -> entryExpireAt opts timeNow = time.zero.
Proof. intros H. unfold entryExpireAt. by rewrite H. Qed.

(** C1, on the code: an entry whose [ExpireAt] is the zero time, as every
    entry stored with a TTL of 0 has it, is not served by a later lookup.
    [UnixNano] of the zero time is not 0 and the zero time is before any
    reading of the clock, so that [Get] takes the entry for expired, removes
    the key and reports a miss. *)
Theorem C1_zero_expiry_entry_is_removed key now (w : World S) data s1 cch :
  Store_Get key (store w) = (Ok data, s1) ->
  ptr (Decode data) = Some cch ->
  ExpireAt cch = time.zero ->
  Before time.zero now = true ->
  UnixNano (ExpireAt cch) = -6795364578871345152 /\
  Cache_Get key now w =
    Return (None, None)
      (mkWorld (ctx w) (Store_Remove key s1).2
         (calls w ++ [CallGet key (Ok data);
                      CallRemove key (Store_Remove key s1).1])).
Proof.
  intros Hget Hdec Hz Hnow.
  rewrite (Cache_Get_decoded _ _ _ _ _ _ Hget Hdec), Hz, Hnow.
  split; reflexivity.
Qed.

(** C2, as amended: the error of the decoder never reaches the caller of
    [Get].  Whatever the decoder reports, when it leaves an entry behind
    [Get] returns a nil error and treats that entry by its expiry alone:
    removed and missed when it counts as expired, served otherwise. *)
Theorem C2_decode_error_is_dropped key now (w : World S) data s1 cch :
  Store_Get key (store w) = (Ok data, s1) ->
  ptr (Decode data) = Some cch ->
  exists w',
    Cache_Get key now w =
      Return (if negb (UnixNano (ExpireAt cch) =? 0) && Before (ExpireAt cch) now
              then None else Some cch, None) w'.
Proof.
  intros Hget Hdec. rewrite (Cache_Get_decoded _ _ _ _ _ _ Hget Hdec).
  destruct (negb (UnixNano (ExpireAt cch) =? 0) && Before (ExpireAt cch) now);
    eauto.
Qed.

(** C3, as amended: for every stored entry whose [ExpireAt] is set, has a
    [UnixNano] other than 0 and is strictly before the reading of the clock,
    a lookup of its key reports a miss, [Remove] is called on the key, and
    what [Remove] returns is ignored. *)
Theorem C3_expired_entry_is_removed_and_missed key now (w : World S) data s1 cch :
  Store_Get key (store w) = (Ok data, s1) ->
  ptr (Decode data) = Some cch ->
  IsZero (ExpireAt cch) = false ->
  UnixNano (ExpireAt cch) <> 0 ->
  Before (ExpireAt cch) now = true ->
  Cache_Get key now w =
    Return (None, None)
      (mkWorld (ctx w) (Store_Remove key s1).2
         (calls w ++ [CallGet key (Ok data);
                      CallRemove key (Store_Remove key s1).1])).
Proof.
  intros Hget Hdec _ Hnz Hb.
  rewrite (Cache_Get_decoded _ _ _ _ _ _ Hget Hdec), Hb.
  by destruct (Z.eqb_spec (UnixNano (ExpireAt cch)) 0).
Qed.

(** C8: a request whose method is not GET goes straight to the handlers
    further down: no call is made on the store, and the context is what
    those handlers make of the one that came in. *)
Theorem C8_non_GET_bypasses_cache opts now (w : World S) :
  http.Method (gin.Request (ctx w)) <> "GET" ->
  handler downstream opts now w =
    Return tt (mkWorld (gin.Next downstream (ctx w)) (store w) (calls w)).
Proof.
  intros Hm. apply String.eqb_neq in Hm.
  unfold handler, getCtx, modCtx, mbind, M_bind. by rewrite Hm.
Qed.

(** C10: on a GET request the handler panics, before any call on the store
    and with the context untouched, unless the context holds a [time.Time]
    under the key [TimeNow]. *)
Theorem C10_missing_TimeNow_panics opts now (w : World S) :
  http.Method (gin.Request (ctx w)) = "GET" ->
  (forall t, gin.Keys (ctx w) !! "TimeNow" <> Some (gin.anyTime t)) ->
  handler downstream opts now w = Panic w.
Proof.
  intros Hm Hk. apply String.eqb_eq in Hm.
  unfold handler, getCtx, mbind, M_bind. rewrite Hm. cbn.
  destruct (gin.Keys (ctx w) !! "TimeNow") as [[| t | | |]|] eqn:E; try done.
  by destruct (Hk t).
Qed.

(** The handler on a cache miss, once the entry is encoded. *)
Lemma handler_on_miss opts now (w w1 : World S) timeNow e data :
  http.Method (gin.Request (ctx w)) = "GET" ->
  gin.Keys (ctx w) !! "TimeNow" = Some (gin.anyTime timeNow) ->
  Cache_Get (cacheKey opts (gin.Request (ctx w))) now w = Return (None, e) w1 ->
  Encode (capturedEntry opts timeNow
            (missContext downstream opts (cacheKey opts (gin.Request (ctx w)))
               timeNow (ctx w1))) = Ok data ->
  handler downstream opts now w =
    let key := cacheKey opts (gin.Request (ctx w)) in
    let c1 := missContext downstream opts key timeNow (ctx w1) in
    Return tt
      (mkWorld (gin.setWriter (unwrap (gin.Writer c1)) c1)
         (Store_Set key data (store w1)).2
         (calls w1 ++ [CallSet key data (Store_Set key data (store w1)).1])).
Proof.
  intros Hm Hk Hget Henc. apply String.eqb_eq in Hm.
  unfold handler, getCtx, mbind, M_bind. rewrite Hm. cbn. rewrite Hk.
  cbn. rewrite Hget. cbn.
  unfold onMiss, Cache_Set, encodeOrPanic, callSet, modWriter, modCtx, getCtx,
    mbind, M_bind, mret, M_ret. cbn.
  match goal with
  | |- context [Encode ?x] =>
      change x with
        (capturedEntry opts timeNow
           (missContext downstream opts (cacheKey opts (gin.Request (ctx w)))
              timeNow (ctx w1)))
  end.
  rewrite Henc.
  cbn. destruct (Store_Set _ data (store w1)) as [r s2]. reflexivity.
Qed.

(** C9, as amended: on a cache miss the handler makes one call of
    [Store.Set] and returns normally whatever that call returned; what its
    caller sees, the context the handlers further down produced with the
    wrapper taken off the writer, does not depend on it.  A failure to
    persist is dropped, and the response already sent is not altered. *)
Theorem C9_Set_result_is_dropped opts now (w w1 : World S) timeNow e data :
  http.Method (gin.Request (ctx w)) = "GET" ->
  gin.Keys (ctx w) !! "TimeNow" = Some (gin.anyTime timeNow) ->
  Cache_Get (cacheKey opts (gin.Request (ctx w))) now w = Return (None, e) w1 ->
  Encode (capturedEntry opts timeNow
            (missContext downstream opts (cacheKey opts (gin.Request (ctx w)))
               timeNow (ctx w1))) = Ok data ->
  let key := cacheKey opts (gin.Request (ctx w)) in
  let c1 := missContext downstream opts key timeNow (ctx w1) in
  observed (handler downstream opts now w)
    = Some (gin.setWriter (unwrap (gin.Writer c1)) c1) /\
  callsOf (handler downstream opts now w)
    = calls w1 ++ [CallSet key data (Store_Set key data (store w1)).1] /\
  gin.Writer (gin.setWriter (unwrap (gin.Writer c1)) c1) = unwrap (gin.Writer c1).
Proof.
  intros Hm Hk Hget Henc key c1.
  rewrite (handler_on_miss _ _ _ _ _ _ _ Hm Hk Hget Henc).
  repeat split.
Qed.

End cache_facts.

(** ** The claims at concrete requests *)

Lemma C1_zero_expiry_entry_is_removed_witness :
  UnixNano (ExpireAt (sampleEntry time.zero)) = -6795364578871345152 /\
  Cache_Get (St := InMemory) (Cd := gob.codec 65) sampleKey (mkTime 63902822405 0)
    (sampleWorld "GET" sampleKeys (sampleStore (encoded (sampleEntry time.zero))))
  = Return (None, None)
      (mkWorld (sampleContext "GET" sampleKeys) ∅
         [CallGet sampleKey (Ok (encoded (sampleEntry time.zero)));
          CallRemove sampleKey None]).
Proof.
  assert (Hget : Store_Get (Store := InMemory) sampleKey
                   (store (sampleWorld "GET" sampleKeys
                             (sampleStore (encoded (sampleEntry time.zero)))))
                 = (Ok (encoded (sampleEntry time.zero)),
                    sampleStore (encoded (sampleEntry time.zero))))
    by reflexivity.
  assert (Hdec : ptr (Decode (Codec := gob.codec 65) (encoded (sampleEntry time.zero)))
                 = Some (sampleEntry time.zero))
    by reflexivity.
  assert (Hnow : Before time.zero (mkTime 63902822405 0) = true)
    by reflexivity.
  pose proof (C1_zero_expiry_entry_is_removed (St := InMemory) (Cd := gob.codec 65)
                sampleKey (mkTime 63902822405 0) _ _ _ _
                Hget Hdec eq_refl Hnow) as [H1 H2].
  split; [exact H1|]. rewrite H2. reflexivity.
Defined.

Lemma C2_decode_error_is_dropped_witness :
  err (gob.Decode 65 truncatedEntry) = Some gob.errDecode /\
  exists w',
    Cache_Get (St := InMemory) (Cd := gob.codec 65) sampleKey (mkTime 63902822405 0)
      (sampleWorld "GET" sampleKeys (sampleStore truncatedEntry))
    = Return (Some (mkCached 200 [] ∅ (mkTime 63902822460 0)), None) w'.
Proof.
  split; [reflexivity|].
  assert (Hget : Store_Get (Store := InMemory) sampleKey
                   (store (sampleWorld "GET" sampleKeys (sampleStore truncatedEntry)))
                 = (Ok truncatedEntry, sampleStore truncatedEntry))
    by reflexivity.
  assert (Hdec : ptr (Decode (Codec := gob.codec 65) truncatedEntry)
                 = Some (mkCached 200 [] ∅ (mkTime 63902822460 0)))
    by reflexivity.
  exact (C2_decode_error_is_dropped (St := InMemory) (Cd := gob.codec 65)
           sampleKey (mkTime 63902822405 0) _ _ _ _ Hget Hdec).
Defined.

(** C2 as stated fails on the empty byte sequence: the decoder reports an
    error and leaves the pointer nil, and the lookup, which drops the
    error and dereferences the pointer, panics instead of reporting a
    miss. *)
Lemma C2_empty_bytes_panic_the_lookup :
  gob.Decode 65 [] = mkDecodeResult None (Some gob.errEOF) /\
  Cache_Get (St := InMemory) (Cd := gob.codec 65) sampleKey (mkTime 63902822405 0)
    (sampleWorld "GET" sampleKeys (sampleStore []))
  = Panic (mkWorld (sampleContext "GET" sampleKeys) (sampleStore [])
             [CallGet sampleKey (Ok [])]).
Proof. split; reflexivity. Qed.

Lemma C3_expired_entry_is_removed_and_missed_witness :
  Cache_Get (St := ReadOnly) (Cd := gob.codec 65) sampleKey (mkTime 63902822405 0)
    (sampleWorld "GET" sampleKeys (sampleStore (encoded (sampleEntry jan2026))))
  = Return (None, None)
      (mkWorld (sampleContext "GET" sampleKeys)
         (sampleStore (encoded (sampleEntry jan2026)))
         [CallGet sampleKey (Ok (encoded (sampleEntry jan2026)));
          CallRemove sampleKey (Some errReadOnly)]).
Proof.
  assert (Hget : Store_Get (Store := ReadOnly) sampleKey
                   (store (sampleWorld "GET" sampleKeys
                             (sampleStore (encoded (sampleEntry jan2026)))))
                 = (Ok (encoded (sampleEntry jan2026)),
                    sampleStore (encoded (sampleEntry jan2026))))
    by reflexivity.
  assert (Hdec : ptr (Decode (Codec := gob.codec 65) (encoded (sampleEntry jan2026)))
                 = Some (sampleEntry jan2026))
    by reflexivity.
  assert (Hset : IsZero (ExpireAt (sampleEntry jan2026)) = false)
    by reflexivity.
  assert (Hnz : UnixNano (ExpireAt (sampleEntry jan2026)) <> 0)
    by (vm_compute; discriminate).
  assert (Hb : Before (ExpireAt (sampleEntry jan2026)) (mkTime 63902822405 0) = true)
    by reflexivity.
  rewrite (C3_expired_entry_is_removed_and_missed (St := ReadOnly) (Cd := gob.codec 65)
             sampleKey (mkTime 63902822405 0) _ _ _ _ Hget Hdec Hset Hnz Hb).
  reflexivity.
Defined.

(** C3 as stated fails in two places.  An entry whose [ExpireAt] is the
    very instant of the lookup (at, not after, the current time) is served,
    and so is one whose [ExpireAt] is 1970-01-01T00:00:00Z, which is set and
    long past but has the [UnixNano] 0 that [Get] reads as no expiry; for
    neither is [Remove] called. *)
Lemma C3_entry_expiring_now_is_served :
  Cache_Get (St := InMemory) (Cd := gob.codec 65) sampleKey jan2026
    (sampleWorld "GET" sampleKeys (sampleStore (encoded (sampleEntry jan2026))))
  = Return (Some (sampleEntry jan2026), None)
      (mkWorld (sampleContext "GET" sampleKeys)
         (sampleStore (encoded (sampleEntry jan2026)))
         [CallGet sampleKey (Ok (encoded (sampleEntry jan2026)))]) /\
  IsZero (mkTime 62135596800 0) = false /\
  Before (mkTime 62135596800 0) jan2026 = true /\
  Cache_Get (St := InMemory) (Cd := gob.codec 65) sampleKey jan2026
    (sampleWorld "GET" sampleKeys
       (sampleStore (encoded (sampleEntry (mkTime 62135596800 0)))))
  = Return (Some (sampleEntry (mkTime 62135596800 0)), None)
      (mkWorld (sampleContext "GET" sampleKeys)
         (sampleStore (encoded (sampleEntry (mkTime 62135596800 0))))
         [CallGet sampleKey (Ok (encoded (sampleEntry (mkTime 62135596800 0))))]).
Proof. repeat split; reflexivity. Qed.

Lemma C8_non_GET_bypasses_cache_witness :
  handler (St := InMemory) (Cd := gob.codec 65) sampleDownstream
    (sampleOptions (60 * Second)) (mkTime 63902822405 0)
    (sampleWorld "POST" sampleKeys ∅)
  = Return tt
      (mkWorld (gin.Next sampleDownstream (sampleContext "POST" sampleKeys)) ∅ []).
Proof.
  apply (C8_non_GET_bypasses_cache (St := InMemory) (Cd := gob.codec 65)
           sampleDownstream (sampleOptions (60 * Second)) (mkTime 63902822405 0)
           (sampleWorld "POST" sampleKeys ∅)).
  cbn. discriminate.
Defined.

Lemma C10_missing_TimeNow_panics_witness :
  handler (St := InMemory) (Cd := gob.codec 65) sampleDownstream
    (sampleOptions (60 * Second)) (mkTime 63902822405 0)
    (sampleWorld "GET" ∅ ∅)
  = Panic (sampleWorld "GET" ∅ ∅) /\
  handler (St := InMemory) (Cd := gob.codec 65) sampleDownstream
    (sampleOptions (60 * Second)) (mkTime 63902822405 0)
    (sampleWorld "GET" {["TimeNow" := gin.anyString "2026-01-01T00:00:00Z"]} ∅)
  = Panic (sampleWorld "GET" {["TimeNow" := gin.anyString "2026-01-01T00:00:00Z"]} ∅).
Proof.
  split.
  - apply (C10_missing_TimeNow_panics (St := InMemory) (Cd := gob.codec 65)
             sampleDownstream (sampleOptions (60 * Second)) (mkTime 63902822405 0)
             (sampleWorld "GET" ∅ ∅)); [reflexivity|].
    intros t H. vm_compute in H. discriminate.
  - apply (C10_missing_TimeNow_panics (St := InMemory) (Cd := gob.codec 65)
             sampleDownstream (sampleOptions (60 * Second)) (mkTime 63902822405 0)
             (sampleWorld "GET"
                {["TimeNow" := gin.anyString "2026-01-01T00:00:00Z"]} ∅));
      [reflexivity|].
    intros t H. vm_compute in H. discriminate.
Defined.

Lemma sample_lookup_misses (St : Store (gmap string (list byte))) :
  Store_Get sampleKey ∅ = (Err ErrNotFound, ∅) ->
  Cache_Get (St := St) (Cd := gob.codec 65)
    (cacheKey (sampleOptions (60 * Second))
       (gin.Request (ctx (sampleWorld "GET" sampleKeys ∅))))
    (mkTime 63902822405 0) (sampleWorld "GET" sampleKeys ∅)
  = Return (None, Some ErrNotFound)
      (mkWorld (sampleContext "GET" sampleKeys) ∅
         [CallGet sampleKey (Err ErrNotFound)]).
Proof.
  intros Hget.
  assert (Hkey : cacheKey (sampleOptions (60 * Second))
                   (gin.Request (ctx (sampleWorld "GET" sampleKeys ∅)))
                 = sampleKey) by (vm_compute; reflexivity).
  rewrite Hkey.
  unfold Cache_Get, callGet, mbind, M_bind, mret, M_ret. cbn.
  rewrite Hget. reflexivity.
Qed.

Lemma sample_entry_encodes :
  Encode (Codec := gob.codec 65)
    (capturedEntry (sampleOptions (60 * Second)) jan2026
       (missContext sampleDownstream (sampleOptions (60 * Second))
          (cacheKey (sampleOptions (60 * Second))
             (gin.Request (ctx (sampleWorld "GET" sampleKeys ∅))))
          jan2026
          (ctx (mkWorld (sampleContext "GET" sampleKeys)
                  (∅ : gmap string (list byte))
                  [CallGet sampleKey (Err ErrNotFound)]))))
  = Ok (encoded (capturedEntry (sampleOptions (60 * Second)) jan2026
          (missContext sampleDownstream (sampleOptions (60 * Second))
             sampleKey jan2026 (sampleContext "GET" sampleKeys)))).
Proof. vm_compute. reflexivity. Qed.

Lemma C9_Set_result_is_dropped_witness :
  let c1 := missContext sampleDownstream (sampleOptions (60 * Second))
              (cacheKey (sampleOptions (60 * Second))
                 (gin.Request (ctx (sampleWorld "GET" sampleKeys ∅))))
              jan2026 (sampleContext "GET" sampleKeys) in
  observed (handler (St := ReadOnly) (Cd := gob.codec 65) sampleDownstream
              (sampleOptions (60 * Second)) (mkTime 63902822405 0)
              (sampleWorld "GET" sampleKeys ∅))
  = Some (gin.setWriter (unwrap (gin.Writer c1)) c1) /\
  callsOf (handler (St := ReadOnly) (Cd := gob.codec 65) sampleDownstream
             (sampleOptions (60 * Second)) (mkTime 63902822405 0)
             (sampleWorld "GET" sampleKeys ∅))
  = [CallGet sampleKey (Err ErrNotFound)]
    ++ [CallSet (cacheKey (sampleOptions (60 * Second))
                   (gin.Request (ctx (sampleWorld "GET" sampleKeys ∅))))
          (encoded (capturedEntry (sampleOptions (60 * Second)) jan2026
             (missContext sampleDownstream (sampleOptions (60 * Second))
                sampleKey jan2026 (sampleContext "GET" sampleKeys))))
          (Some errReadOnly)] /\
  gin.Writer (gin.setWriter (unwrap (gin.Writer c1)) c1) = unwrap (gin.Writer c1).
Proof.
  exact (C9_Set_result_is_dropped (St := ReadOnly) (Cd := gob.codec 65)
           sampleDownstream (sampleOptions (60 * Second)) (mkTime 63902822405 0)
           (sampleWorld "GET" sampleKeys ∅) _ jan2026 _ _ eq_refl eq_refl
           (sample_lookup_misses ReadOnly eq_refl) sample_entry_encodes).
Defined.

(** C9 as stated fails on a store that refuses the write: [Set] returns an
    error, and the handler returns normally with the very context it leaves
    when the write succeeds, so that its caller cannot tell the failure. *)
Lemma C9_failed_Set_goes_unreported :
  (exists data,
     last (callsOf (handler (St := ReadOnly) (Cd := gob.codec 65) sampleDownstream
                      (sampleOptions (60 * Second)) (mkTime 63902822405 0)
                      (sampleWorld "GET" sampleKeys ∅)))
     = Some (CallSet sampleKey data (Some errReadOnly)) /\
     last (callsOf (handler (St := InMemory) (Cd := gob.codec 65) sampleDownstream
                      (sampleOptions (60 * Second)) (mkTime 63902822405 0)
                      (sampleWorld "GET" sampleKeys ∅)))
     = Some (CallSet sampleKey data None)) /\
  observed (handler (St := ReadOnly) (Cd := gob.codec 65) sampleDownstream
              (sampleOptions (60 * Second)) (mkTime 63902822405 0)
              (sampleWorld "GET" sampleKeys ∅))
  = observed (handler (St := InMemory) (Cd := gob.codec 65) sampleDownstream
                (sampleOptions (60 * Second)) (mkTime 63902822405 0)
                (sampleWorld "GET" sampleKeys ∅)) /\
  observed (handler (St := ReadOnly) (Cd := gob.codec 65) sampleDownstream
              (sampleOptions (60 * Second)) (mkTime 63902822405 0)
              (sampleWorld "GET" sampleKeys ∅)) <> None.
Proof.
  rewrite (handler_on_miss (St := ReadOnly) (Cd := gob.codec 65)
             sampleDownstream (sampleOptions (60 * Second)) (mkTime 63902822405 0)
             (sampleWorld "GET" sampleKeys ∅) _ jan2026 _ _ eq_refl eq_refl
             (sample_lookup_misses ReadOnly eq_refl) sample_entry_encodes).
  rewrite (handler_on_miss (St := InMemory) (Cd := gob.codec 65)
             sampleDownstream (sampleOptions (60 * Second)) (mkTime 63902822405 0)
             (sampleWorld "GET" sampleKeys ∅) _ jan2026 _ _ eq_refl eq_refl
             (sample_lookup_misses InMemory eq_refl) sample_entry_encodes).
  assert (Hkey : cacheKey (sampleOptions (60 * Second))
                   (gin.Request (ctx (sampleWorld "GET" sampleKeys ∅)))
                 = sampleKey) by (vm_compute; reflexivity).
  cbn zeta. rewrite Hkey.
  split; [|split; [reflexivity|discriminate]].
  eexists. split; reflexivity.
Qed.

(** * Properties of the codec *)

Section byte_facts.

Lemma Z_of_byte_range b : 0 <= Z_of_byte b < 256.
Proof.
  unfold Z_of_byte. pose proof (Byte.to_N_bounded b). lia.
Qed.

Lemma Z_of_byte_of_Z z : Z_of_byte (byte_of_Z z) = z mod 256.
Proof.
  unfold Z_of_byte, byte_of_Z.
  pose proof (Z.mod_pos_bound z 256 ltac:(lia)) as Hr.
  destruct (Byte.of_N (Z.to_N (z mod 256))) as [b|] eqn:E.
  - cbn. apply Byte.to_of_N in E. rewrite E. lia.
  - apply Byte.of_N_None_iff in E. lia.
Qed.

Lemma be_value_snoc l b : be_value (l ++ [b]) = be_value l * 256 + Z_of_byte b.
Proof. unfold be_value. by rewrite fold_left_app. Qed.

Lemma length_be_bytes n x : length (be_bytes n x) = n.
Proof.
  revert x. induction n as [|n IH]; intros x; [done|].
  cbn. rewrite length_app, IH. cbn. lia.
Qed.

Lemma be_value_be_bytes n x : be_value (be_bytes n x) = x mod 256 ^ Z.of_nat n.
Proof.
  revert x. induction n as [|n IH]; intros x.
  - cbn. by rewrite Z.mod_1_r.
  - cbn [be_bytes]. rewrite be_value_snoc, IH, Z_of_byte_of_Z.
    rewrite Nat2Z.inj_succ, Z.pow_succ_r by lia.
    rewrite (Z.rem_mul_r x 256 (256 ^ Z.of_nat n)) by lia. lia.
Qed.

End byte_facts.

Section gob_facts.

Import gob.

Lemma byteLen_bounds x :
  127 < x < 2 ^ 64 ->
  (1 <= byteLen x <= 8)%nat /\ x < 256 ^ Z.of_nat (byteLen x).
Proof.
  intros Hx. unfold byteLen.
  assert (Hlog : 0 <= Z.log2 x < 64).
  { split; [apply Z.log2_nonneg|]. apply Z.log2_lt_pow2; lia. }
  pose proof (Z.div_mod (Z.log2 x) 8 ltac:(lia)) as Hdm.
  pose proof (Z.mod_pos_bound (Z.log2 x) 8 ltac:(lia)) as Hm.
  split; [lia|].
  rewrite Z2Nat.id by lia.
  change 256 with (2 ^ 8). rewrite <- Z.pow_mul_r by lia.
  apply Z.lt_le_trans with (2 ^ (Z.succ (Z.log2 x))).
  - apply Z.log2_spec. lia.
  - apply Z.pow_le_mono_r; lia.
Qed.

Lemma length_encodeUint x : (1 <= length (encodeUint x))%nat.
Proof. unfold encodeUint. destruct (x <=? 127); cbn; lia. Qed.

Lemma decodeUint_encodeUint x rest :
  0 <= x < 2 ^ 64 -> decodeUint (encodeUint x ++ rest) = Some (x, rest).
Proof.
  intros Hx. unfold encodeUint.
  destruct (Z.leb_spec x 127) as [Hs|Hb].
  - cbn. rewrite Z_of_byte_of_Z, Z.mod_small by lia.
    destruct (Z.leb_spec x 127); [done|lia].
  - destruct (byteLen_bounds x ltac:(lia)) as [Hn Hlt].
    cbn [app decodeUint]. rewrite Z_of_byte_of_Z.
    assert (Hv : (- Z.of_nat (byteLen x)) mod 256 = 256 - Z.of_nat (byteLen x)).
    { symmetry. apply (Z.mod_unique _ _ (-1)); lia. }
    rewrite Hv.
    destruct (Z.leb_spec (256 - Z.of_nat (byteLen x)) 127); [lia|].
    replace (256 - (256 - Z.of_nat (byteLen x))) with (Z.of_nat (byteLen x)) by lia.
    unfold uint64Size.
    destruct (Z.ltb_spec 8 (Z.of_nat (byteLen x))); [lia|].
    rewrite length_app, length_be_bytes.
    destruct (Z.ltb_spec (Z.of_nat (byteLen x + length rest)) (Z.of_nat (byteLen x)));
      [lia|].
    rewrite Nat2Z.id.
    rewrite take_app_length' by (by rewrite length_be_bytes).
    rewrite drop_app_length' by (by rewrite length_be_bytes).
    rewrite be_value_be_bytes, Z.mod_small by lia. done.
Qed.

Lemma foldInt_range i :
  isInt64 i ->
  0 <= (if i <? 0 then Z.lor (Z.shiftl (Z.lnot i) 1) 1 else Z.shiftl i 1) < 2 ^ 64 /\
  (if Z.odd (if i <? 0 then Z.lor (Z.shiftl (Z.lnot i) 1) 1 else Z.shiftl i 1)
   then Z.lnot (Z.shiftr (if i <? 0 then Z.lor (Z.shiftl (Z.lnot i) 1) 1
                          else Z.shiftl i 1) 1)
   else Z.shiftr (if i <? 0 then Z.lor (Z.shiftl (Z.lnot i) 1) 1
                  else Z.shiftl i 1) 1) = i.
Proof.
  unfold isInt64, minInt64, maxInt64. intros Hi.
  destruct (Z.ltb_spec i 0) as [Hneg|Hpos].
  - assert (Hlor : Z.lor (Z.shiftl (Z.lnot i) 1) 1 = 2 * (- i - 1) + 1).
    { rewrite Z.shiftl_mul_pow2 by lia.
      rewrite <- Z.lxor_lor, <- Z.add_nocarry_lxor.
      - unfold Z.lnot. lia.
      - change 1 with (Z.ones 1) at 2. rewrite Z.land_ones by lia.
        change (2 ^ 1) with 2. by rewrite Z.mod_mul.
      - change 1 with (Z.ones 1) at 2. rewrite Z.land_ones by lia.
        change (2 ^ 1) with 2. by rewrite Z.mod_mul. }
    rewrite Hlor. split; [lia|].
    rewrite (Z.add_comm (2 * (- i - 1)) 1), Z.odd_add_mul_2. cbn [Z.odd].
    rewrite Z.shiftr_div_pow2 by lia. change (2 ^ 1) with 2.
    replace ((1 + 2 * (- i - 1)) / 2) with (- i - 1).
    + unfold Z.lnot. lia.
    + apply (Z.div_unique _ _ _ 1); lia.
  - rewrite Z.shiftl_mul_pow2 by lia. change (2 ^ 1) with 2. split; [lia|].
    rewrite Z.odd_mul. change (Z.odd 2) with false. rewrite andb_false_r.
    rewrite Z.shiftr_div_pow2 by lia. change (2 ^ 1) with 2.
    by rewrite Z.div_mul.
Qed.

Lemma decodeInt_encodeInt i rest :
  isInt64 i -> decodeInt (encodeInt i ++ rest) = Some (i, rest).
Proof.
  intros Hi. destruct (foldInt_range i Hi) as [Hr Hv].
  unfold decodeInt, encodeInt. rewrite decodeUint_encodeUint by done.
  by rewrite Hv.
Qed.

Lemma small_app_l a b : small (a ++ b) -> small a.
Proof. unfold small. rewrite length_app. lia. Qed.

Lemma small_app_r a b : small (a ++ b) -> small b.
Proof. unfold small. rewrite length_app. lia. Qed.

Lemma small_uint bs : small bs -> 0 <= Z.of_nat (length bs) < 2 ^ 64.
Proof. unfold small, tooBig. lia. Qed.

Lemma decodeBytes_encodeBytes b rest :
  small b -> decodeBytes (encodeBytes b ++ rest) = Some (b, rest).
Proof.
  intros Hb. unfold decodeBytes, encodeBytes.
  rewrite <- app_assoc, decodeUint_encodeUint by by apply small_uint.
  rewrite length_app.
  destruct (Z.ltb_spec (Z.of_nat (length b + length rest)) (Z.of_nat (length b)));
    [lia|].
  destruct (Z.leb_spec tooBig (Z.of_nat (length b))); [unfold small in Hb; lia|].
  cbn. rewrite Nat2Z.id. by rewrite take_app_length, drop_app_length.
Qed.

Lemma decodeString_encodeString s rest :
  small (list_byte_of_string s) ->
  decodeString (encodeString s ++ rest) = Some (s, rest).
Proof.
  intros Hs. unfold decodeString, encodeString.
  rewrite decodeBytes_encodeBytes by done.
  by rewrite string_of_list_byte_of_string.
Qed.

Lemma small_encodeBytes b : small (encodeBytes b) -> small b.
Proof. apply small_app_r. Qed.

Lemma length_encodeString s : (1 <= length (encodeString s))%nat.
Proof.
  unfold encodeString, encodeBytes. rewrite length_app.
  pose proof (length_encodeUint (Z.of_nat (length (list_byte_of_string s)))). lia.
Qed.

Lemma length_concat_encodeString l :
  (length l <= length (concat (map encodeString l)))%nat.
Proof.
  induction l as [|s l IH]; [done|].
  cbn. rewrite length_app. pose proof (length_encodeString s). lia.
Qed.

Lemma decodeStringsN_encode l rest :
  small (concat (map encodeString l)) ->
  decodeStringsN (length l) (concat (map encodeString l) ++ rest) = Some (l, rest).
Proof.
  induction l as [|s l IH]; intros Hl; [done|].
  cbn [map concat length decodeStringsN] in *. rewrite <- app_assoc.
  rewrite decodeString_encodeString
    by (apply small_encodeBytes; by apply small_app_l in Hl).
  rewrite IH by by apply small_app_r in Hl. done.
Qed.

Lemma decodeStrings_encodeStrings l rest :
  small (encodeStrings l) ->
  decodeStrings (encodeStrings l ++ rest) = Some (l, rest).
Proof.
  intros Hl. unfold decodeStrings, encodeStrings in *.
  pose proof (small_app_r _ _ Hl) as Hc.
  pose proof (length_concat_encodeString l) as Hlen.
  rewrite <- app_assoc, decodeUint_encodeUint
    by (unfold small, tooBig in Hc; lia).
  rewrite length_app.
  destruct (Z.ltb_spec
              (Z.of_nat (length (concat (map encodeString l)) + length rest))
              (Z.of_nat (length l))); [lia|].
  rewrite Nat2Z.id. by apply decodeStringsN_encode.
Qed.

Lemma length_encodeEntry kv : (1 <= length (encodeEntry kv))%nat.
Proof.
  unfold encodeEntry. rewrite length_app.
  pose proof (length_encodeString kv.1). lia.
Qed.

Lemma length_concat_encodeEntry l :
  (length l <= length (concat (map encodeEntry l)))%nat.
Proof.
  induction l as [|kv l IH]; [done|].
  cbn. rewrite length_app. pose proof (length_encodeEntry kv). lia.
Qed.

Lemma decodeEntries_encode l m rest fuel :
  small (concat (map encodeEntry l)) ->
  (length l <= fuel)%nat ->
  decodeEntries fuel (Z.of_nat (length l)) m (concat (map encodeEntry l) ++ rest)
  = (fold_left (fun m kv => <[kv.1 := kv.2]> m) l m, Some rest).
Proof.
  revert m fuel. induction l as [|[k v] l IH]; intros m fuel Hl Hfuel.
  - by destruct fuel.
  - destruct fuel as [|fuel]; [cbn in Hfuel; lia|].
    cbn [length map concat fold_left] in *.
    cbn [decodeEntries].
    destruct (Z.leb_spec (Z.of_nat (S (length l))) 0); [lia|].
    unfold encodeEntry at 1. cbn [fst snd]. rewrite <- !app_assoc.
    pose proof (small_app_l _ _ Hl) as Hkv. unfold encodeEntry in Hkv.
    cbn [fst snd] in Hkv.
    rewrite decodeString_encodeString
      by (apply small_encodeBytes; by apply small_app_l in Hkv).
    rewrite decodeStrings_encodeStrings by by apply small_app_r in Hkv.
    replace (Z.of_nat (S (length l)) - 1) with (Z.of_nat (length l)) by lia.
    apply IH; [by apply small_app_r in Hl | lia].
Qed.

(** Setting the pairs of a map one after the other gives the map back. *)
Lemma fold_insert_map_to_list (m : gmap string (list string)) :
  fold_left (fun m kv => <[kv.1 := kv.2]> m) (map_to_list m) ∅ = m.
Proof.
  assert (H : forall (l : list (string * list string)) (m0 : gmap string (list string)),
             NoDup l.*1 ->
             fold_left (fun m kv => <[kv.1 := kv.2]> m) l m0 = list_to_map l ∪ m0).
  { induction l as [|[k v] l IH]; intros m0 Hnd.
    - cbn. by rewrite (left_id_L ∅ (∪)).
    - cbn in *. apply NoDup_cons in Hnd as [Hk Hnd].
      rewrite IH by done.
      rewrite <- insert_union_r, insert_union_l; [done|].
      by apply not_elem_of_list_to_map_1. }
  rewrite H by apply NoDup_fst_map_to_list.
  by rewrite list_to_map_to_list, (right_id_L ∅ (∪)).
Qed.

Lemma decodeMap_encodeMap m rest :
  small (encodeMap m) -> decodeMap ∅ (encodeMap m ++ rest) = (m, Some rest).
Proof.
  intros Hm. unfold decodeMap, encodeMap in *.
  pose proof (small_app_r _ _ Hm) as Hc.
  pose proof (length_concat_encodeEntry (map_to_list m)) as Hlen.
  rewrite <- app_assoc, decodeUint_encodeUint
    by (unfold small, tooBig in Hc; lia).
  rewrite wrap64_id
    by (unfold small, tooBig, isInt64, minInt64, maxInt64 in *; lia).
  rewrite decodeEntries_encode; [|done|rewrite length_app; lia].
  by rewrite fold_insert_map_to_list.
Qed.

Lemma wrap64_mod z : isInt64 z -> wrap64 (z mod 2 ^ 64) = z.
Proof.
  intros Hz. unfold wrap64. rewrite Zplus_mod_idemp_l.
  unfold isInt64, minInt64, maxInt64 in Hz. rewrite Z.mod_small; lia.
Qed.

Lemma length_MarshalBinary t : length (MarshalBinary t) = 15%nat.
Proof.
  unfold MarshalBinary. rewrite !length_app, !length_be_bytes. done.
Qed.

Lemma UnmarshalBinary_MarshalBinary t :
  isInt64 (sec t) -> 0 <= nsec t < 2 ^ 30 ->
  UnmarshalBinary (MarshalBinary t) = Some t.
Proof.
  intros Hs Hn.
  pose proof (length_MarshalBinary t) as Hlen.
  unfold MarshalBinary in *. cbn [app] in *.
  unfold UnmarshalBinary.
  change (Z_of_byte "001") with 1. cbn [Z.eqb Pos.eqb orb negb].
  rewrite Hlen. cbn [Z.of_nat Pos.of_succ_nat Pos.succ Z.eqb Pos.eqb negb].
  rewrite take_app_length' by (by rewrite length_be_bytes).
  rewrite drop_app_length' by (by rewrite length_be_bytes).
  rewrite take_app_length' by (by rewrite length_be_bytes).
  rewrite !be_value_be_bytes.
  change (256 ^ Z.of_nat 8) with (2 ^ 64). change (256 ^ Z.of_nat 4) with (2 ^ 32).
  rewrite wrap64_mod by done.
  rewrite (Z.mod_small (nsec t)) by lia.
  destruct (Z.leb_spec (2 ^ 31) (nsec t)); [lia|].
  change (2 ^ 30 - 1) with (Z.ones 30).
  rewrite Z.land_ones, Z.mod_small by lia. by destruct t.
Qed.

Lemma decodeFields_step fuel last f c c' payload rest :
  -1 <= last < f -> f < 4 ->
  decodeField f c (payload ++ rest) = (c', Some rest) ->
  decodeFields (S fuel) last c (encodeUint (f - last) ++ payload ++ rest)
  = decodeFields fuel f c' rest.
Proof.
  intros Hl Hf Hd. cbn [decodeFields].
  rewrite decodeUint_encodeUint by lia.
  destruct (Z.eqb_spec (f - last) 0); [lia|].
  destruct (Z.leb_spec (2 ^ 63) (f - last)); [lia|].
  destruct (Z.leb_spec (4 - (f - last)) last); [lia|].
  replace (last + (f - last)) with f by lia. by rewrite Hd.
Qed.

Lemma decodeFields_end fuel last c rest :
  decodeFields (S fuel) last c (encodeUint 0 ++ rest) = (c, true).
Proof. cbn [decodeFields]. by rewrite decodeUint_encodeUint by lia. Qed.

Lemma decodeField_Status c v rest :
  isInt64 v ->
  decodeField 0 c (encodeInt v ++ rest)
  = (mkCached v (Body c) (Header c) (ExpireAt c), Some rest).
Proof.
  intros Hv. unfold decodeField. cbn [Z.eqb Pos.eqb].
  by rewrite decodeInt_encodeInt.
Qed.

Lemma decodeField_Body c b rest :
  small b ->
  decodeField 1 c (encodeBytes b ++ rest)
  = (mkCached (Status c) b (Header c) (ExpireAt c), Some rest).
Proof.
  intros Hb. unfold decodeField. cbn [Z.eqb Pos.eqb].
  by rewrite decodeBytes_encodeBytes.
Qed.

Lemma decodeField_Header c m rest :
  Header c = ∅ -> small (encodeMap m) ->
  decodeField 2 c (encodeMap m ++ rest)
  = (mkCached (Status c) (Body c) m (ExpireAt c), Some rest).
Proof.
  intros Hc Hm. unfold decodeField. cbn [Z.eqb Pos.eqb].
  by rewrite Hc, decodeMap_encodeMap.
Qed.

Lemma decodeField_ExpireAt c t rest :
  isInt64 (sec t) -> 0 <= nsec t < 2 ^ 30 ->
  decodeField 3 c (encodeBytes (MarshalBinary t) ++ rest)
  = (mkCached (Status c) (Body c) (Header c) t, Some rest).
Proof.
  intros Hs Hn. unfold decodeField. cbn [Z.eqb Pos.eqb].
  rewrite decodeBytes_encodeBytes
    by (unfold small, tooBig; rewrite length_MarshalBinary; lia).
  by rewrite UnmarshalBinary_MarshalBinary.
Qed.

Lemma IsZero_true t : IsZero t = true -> t = time.zero.
Proof.
  unfold IsZero. rewrite andb_true_iff, !Z.eqb_eq. intros [? ?].
  by apply time_eq.
Qed.

Lemma length_zero_nil {A} (l : list A) : (Z.of_nat (length l) =? 0) = true -> l = [].
Proof. rewrite Z.eqb_eq. destruct l; [done|cbn; lia]. Qed.

(** The struct decoder undoes the struct encoder. *)
Lemma decodeStruct_encodeStruct c rest :
  wfCached c -> small (Body c) -> small (encodeMap (Header c)) ->
  decodeFields 5 (-1) zeroCached (encodeStruct c ++ rest) = (c, true).
Proof.
  intros (Hst & Hsec & Hns) Hb Hm.
  assert (Hns' : 0 <= nsec (ExpireAt c) < 2 ^ 30) by (unfold norm in Hns; lia).
  destruct c as [st b m t]. cbn [Status Body Header ExpireAt] in *.
  unfold encodeStruct, sendField. cbn [Status Body Header ExpireAt fst snd].
  destruct (st =? 0) eqn:E0; destruct (Z.of_nat (length b) =? 0) eqn:E1;
    destruct (IsZero t) eqn:E3; cbn [negb app fst snd];
    try apply Z.eqb_eq in E0 as ->;
    try apply length_zero_nil in E1 as ->;
    try apply IsZero_true in E3 as ->;
    rewrite <- ?app_assoc;
    repeat first
      [ rewrite decodeFields_end
      | erewrite (decodeFields_step _ _ 0 _ _ (encodeInt st));
          [ | lia | lia | by apply decodeField_Status ]
      | erewrite (decodeFields_step _ _ 1 _ _ (encodeBytes b));
          [ | lia | lia | by apply decodeField_Body ]
      | erewrite (decodeFields_step _ _ 2 _ _ (encodeMap m));
          [ | lia | lia | by apply decodeField_Header ]
      | erewrite (decodeFields_step _ _ 3 _ _ (encodeBytes (MarshalBinary t)));
          [ | lia | lia | by apply decodeField_ExpireAt ] ];
    reflexivity.
Qed.

Lemma encodeStruct_parts c :
  (length (Body c) <= length (encodeStruct c))%nat /\
  (length (encodeMap (Header c)) <= length (encodeStruct c))%nat.
Proof.
  unfold encodeStruct, sendField, encodeBytes. cbn [fst snd].
  destruct (negb (Status c =? 0));
    destruct (negb (Z.of_nat (length (Body c)) =? 0)) eqn:E1;
    destruct (negb (IsZero (ExpireAt c)));
    cbn [fst snd app]; rewrite ?length_app;
    try (apply negb_false_iff, length_zero_nil in E1; rewrite E1; cbn [length]);
    lia.
Qed.

(** C7: for every entry a Go program can hold, and so for every entry with
    multi-valued headers and a body, decoding the bytes that encoding it
    produced succeeds and yields the entry again: the same status, header
    map with the values of each name in their order, body bytes and expiry
    instant, the zero time included. *)
Theorem C7_gob_round_trip (tid : Z) (c : Cached) (bs : list byte) :
  isInt64 tid -> wfCached c ->
  gob.Encode tid c = Ok bs ->
  gob.Decode tid bs = mkDecodeResult (Some c) None.
Proof.
  intros Htid Hwf Henc. unfold gob.Encode in Henc.
  destruct (Z.leb_spec tooBig (Z.of_nat (length (encodeInt tid ++ encodeStruct c))))
    as [|Hsmall]; [done|].
  injection Henc as <-.
  assert (Hs : small (encodeStruct c)) by by apply small_app_r in Hsmall.
  destruct (encodeStruct_parts c) as [Hb Hm].
  unfold gob.Decode.
  rewrite decodeUint_encodeUint by (unfold tooBig in Hsmall; lia).
  destruct (Z.leb_spec tooBig (Z.of_nat (length (encodeInt tid ++ encodeStruct c))));
    [lia|].
  destruct (Z.ltb_spec (Z.of_nat (length (encodeInt tid ++ encodeStruct c)))
                       (Z.of_nat (length (encodeInt tid ++ encodeStruct c))));
    [lia|].
  cbn [orb]. rewrite Nat2Z.id, firstn_all.
  rewrite decodeInt_encodeInt by done. rewrite Z.eqb_refl.
  unfold decodeStruct.
  rewrite <- (app_nil_r (encodeStruct c)).
  rewrite decodeStruct_encodeStruct; [done|done|..].
  - unfold small in *. lia.
  - unfold small in *. lia.
Qed.

End gob_facts.

Lemma C7_gob_round_trip_witness :
  gob.Encode 65 (sampleEntry jan2026) = Ok (encoded (sampleEntry jan2026)) /\
  gob.Decode 65 (encoded (sampleEntry jan2026))
  = mkDecodeResult (Some (sampleEntry jan2026)) None.
Proof.
  assert (Henc : gob.Encode 65 (sampleEntry jan2026)
                 = Ok (encoded (sampleEntry jan2026))) by reflexivity.
  split; [exact Henc|].
  apply (C7_gob_round_trip 65 (sampleEntry jan2026) (encoded (sampleEntry jan2026))).
  - unfold isInt64, minInt64, maxInt64. lia.
  - unfold wfCached, isInt64, minInt64, maxInt64, norm. cbn. lia.
  - exact Henc.
Defined.

(** ** Two requests in a row

    [GET /a?x=1] twice, five seconds apart.  With a TTL of 60s the second
    request is a hit and makes one call on the store.  With the TTL
    disabled (no options given) the entry of the first request carries the
    zero time, and the second request removes it, is a miss again and stores
    the entry anew. *)

Lemma second_request_hits_with_ttl :
  let first := New (St := InMemory) (Cd := gob.codec 65) sampleDownstream
                 [mkOptions (60 * Second) None false] jan2026
                 (sampleWorld "GET" sampleKeys ∅) in
  let second := New (St := InMemory) (Cd := gob.codec 65) sampleDownstream
                  [mkOptions (60 * Second) None false] (mkTime 63902822405 0)
                  (afterwards first) in
  cacheStatus first = Some ["MISS"] /\
  cacheStatus second = Some ["HIT"] /\
  length (callsOf second) = 1%nat.
Proof. vm_compute. repeat split; reflexivity. Qed.

Lemma second_request_misses_without_ttl :
  let first := New (St := InMemory) (Cd := gob.codec 65) sampleDownstream
                 [] jan2026 (sampleWorld "GET" sampleKeys ∅) in
  let second := New (St := InMemory) (Cd := gob.codec 65) sampleDownstream
                  [] (mkTime 63902822405 0) (afterwards first) in
  cacheStatus first = Some ["MISS"] /\
  cacheStatus second = Some ["MISS"] /\
  (exists data1 data2,
     callsOf second = [CallGet sampleKey (Ok data1);
                       CallRemove sampleKey None;
                       CallSet sampleKey data2 None]).
Proof. vm_compute. repeat split; try reflexivity. eexists _, _. reflexivity. Qed.

(** * Further properties of the expiry policy *)

Section expiry_more.

(** Between the years 1678 and 2262 [UnixNano] is the distance from the Unix
    epoch, so that the only time it reads as 0 there is the epoch itself. *)
Lemma UnixNano_in_range t :
  norm t -> isInt64 (time.abs t - unixEpochAbs) ->
  UnixNano t = time.abs t - unixEpochAbs.
Proof.
  unfold norm, isInt64, minInt64, maxInt64, unixEpochAbs, time.abs.
  intros Hn Hr. unfold UnixNano, unixSec, internalToUnix.
  rewrite <- wrap64_plus_l, wrap64_mul_l, wrap64_plus_l.
  rewrite wrap64_id; unfold isInt64, minInt64, maxInt64; lia.
Qed.

(** X13: two instants get the same bucket boundary exactly when they lie in
    the same window of the duration, counted from the zero time; instants on
    either side of a window edge, however close, get different ones. *)
Theorem same_boundary_iff_same_window (t1 t2 : Time) (D : Duration) :
  valid t1 -> valid t2 -> 0 < D <= maxInt64 ->
  getExpiresAtTime t1 D = getExpiresAtTime t2 D
  <-> time.abs t1 / D = time.abs t2 / D.
Proof.
  intros H1 H2 HD. unfold getExpiresAtTime.
  destruct (roundTimeUp_spec t1 D H1 HD) as [Hn1 Ha1].
  destruct (roundTimeUp_spec t2 D H2 HD) as [Hn2 Ha2].
  split.
  - intros Heq. rewrite Heq in Ha1. nia.
  - intros Hq. apply norm_abs_inj; [done..|]. rewrite Ha1, Ha2, Hq. done.
Qed.

Lemma same_boundary_iff_same_window_witness :
  getExpiresAtTime (mkTime 63902822459 999999999) (60 * Second)
  = getExpiresAtTime (mkTime 63902822460 0) (60 * Second)
  <-> time.abs (mkTime 63902822459 999999999) / (60 * Second)
      = time.abs (mkTime 63902822460 0) / (60 * Second).
Proof.
  apply (same_boundary_iff_same_window
           (mkTime 63902822459 999999999) (mkTime 63902822460 0) (60 * Second)).
  - unfold valid; simpl; lia.
  - unfold valid; simpl; lia.
  - unfold Second, maxInt64; lia.
Defined.

(** X14: the bucket boundary is strictly after the instant it is computed
    for, and it never moves back as the instant moves forward. *)
Theorem boundary_after_now_and_monotone (t1 t2 : Time) (D : Duration) :
  valid t1 -> valid t2 -> 0 < D <= maxInt64 ->
  Before t1 (getExpiresAtTime t1 D) = true /\
  (Before t2 t1 = false ->
   Before (getExpiresAtTime t2 D) (getExpiresAtTime t1 D) = false).
Proof.
  intros H1 H2 HD. unfold getExpiresAtTime.
  destruct (roundTimeUp_spec t1 D H1 HD) as [Hn1 Ha1].
  destruct (roundTimeUp_spec t2 D H2 HD) as [Hn2 Ha2].
  pose proof (rem_bound t1 D HD) as Hr1.
  pose proof (Z.div_mod (time.abs t1) D ltac:(lia)) as Hdm1.
  split.
  - apply (Before_abs _ _ (valid_norm _ H1) Hn1). lia.
  - intros Hle.
    assert (Hge : time.abs t1 <= time.abs t2).
    { destruct (Z.lt_ge_cases (time.abs t2) (time.abs t1)) as [Hc|Hc]; [|lia].
      apply (Before_abs _ _ (valid_norm _ H2) (valid_norm _ H1)) in Hc. congruence. }
    destruct (Before (roundTimeUp t2 D) (roundTimeUp t1 D)) eqn:E; [|done].
    apply (Before_abs _ _ Hn2 Hn1) in E.
    assert (time.abs t1 / D <= time.abs t2 / D) by (apply Z.div_le_mono; lia).
    nia.
Qed.

Lemma boundary_after_now_and_monotone_witness :
  Before (mkTime 63902822410 0) (getExpiresAtTime (mkTime 63902822410 0) (60 * Second))
  = true /\
  (Before (mkTime 63902822475 0) (mkTime 63902822410 0) = false ->
   Before (getExpiresAtTime (mkTime 63902822475 0) (60 * Second))
          (getExpiresAtTime (mkTime 63902822410 0) (60 * Second)) = false).
Proof.
  apply (boundary_after_now_and_monotone
           (mkTime 63902822410 0) (mkTime 63902822475 0) (60 * Second)).
  - unfold valid; simpl; lia.
  - unfold valid; simpl; lia.
  - unfold Second, maxInt64; lia.
Defined.

(** X15: a negative duration is not rounded at all: the "boundary" is the
    instant moved back by the duration, so it lies before the instant, the
    remaining window is the negative duration itself, and the seconds
    handed to [getCacheControl] are that duration cut off towards zero. *)
Theorem negative_duration_boundary_is_in_the_past (t : Time) (d : Duration) :
  valid t -> minInt64 <= d < 0 ->
  time.abs (getExpiresAtTime t d) = time.abs t + d /\
  Before (getExpiresAtTime t d) t = true /\
  getTimeDiff t d = d /\
  maxAgeOf t d = d ÷ 1000000000.
Proof.
  intros Hv Hd. pose proof Hv as [Hn Hs].
  assert (Hi : isInt64 d) by (unfold isInt64, maxInt64, minInt64 in *; lia).
  assert (Hr : roundTimeUp t d = Add t d).
  { unfold roundTimeUp, Truncate. destruct (Z.leb_spec d 0); [done|lia]. }
  destruct (Add_spec t d Hn ltac:(lia) Hi) as [Hn' Ha'].
  assert (Hdiff : getTimeDiff t d = d).
  { unfold getTimeDiff. rewrite Hr, Sub_spec; [lia|done|done|lia|].
    rewrite Ha'. replace (time.abs t + d - time.abs t) with d by lia. done. }
  unfold getExpiresAtTime, maxAgeOf, Nanoseconds. rewrite Hdiff, Hr.
  repeat split; [done|].
  apply (Before_abs _ _ Hn' Hn). lia.
Qed.

Lemma negative_duration_boundary_is_in_the_past_witness :
  time.abs (getExpiresAtTime jan2026 (-1500000000)) = time.abs jan2026 + -1500000000 /\
  Before (getExpiresAtTime jan2026 (-1500000000)) jan2026 = true /\
  getTimeDiff jan2026 (-1500000000) = -1500000000 /\
  maxAgeOf jan2026 (-1500000000) = -1500000000 ÷ 1000000000.
Proof.
  apply (negative_duration_boundary_is_in_the_past jan2026 (-1500000000)).
  - unfold valid, jan2026; simpl; lia.
  - unfold minInt64; lia.
Defined.

End expiry_more.

(** * Further properties of the response capture *)

Section capture_more.







Variable downstream : gin.Context -> list gin.Op.


Lemma updHeader_ginWriter f W w0 :
  W = gin.ginWriter w0 ->
  gin.updHeader f W
  = gin.ginWriter (gin.mkResponseWriter (f (gin.header w0)) (gin.status w0)
                     (gin.written w0) (gin.sent w0)).
Proof. by intros ->. Qed.


End capture_more.


(** * Further properties of the key *)

Section key_more.

Lemma append_empty_r (s : string) : s +:+ "" = s.
Proof.
  induction s as [|c s IH]; [done|].
  change (String c s +:+ "") with (String c (s +:+ "")). by rewrite IH.
Qed.

Lemma tohash_headerPart (hs : list string) (req : http.Request) :
  tohash hs req
  = fold_left (fun acc k => acc +:+ headerPart req k) hs (http.RequestURI req).
Proof.
  unfold tohash. generalize (http.RequestURI req).
  induction hs as [|k hs IH]; intros acc; [done|].
  cbn [fold_left]. rewrite IH. f_equal. unfold headerPart.
  destruct (http.Header req !! k); [done|]. by rewrite append_empty_r.
Qed.

(** X1: the key is a function of the request URI and, for each listed
    header in turn, of its name followed by its values run together.  Two
    requests that agree on these get the same key, whatever their method,
    their other headers, and however the joined values were split. *)
Theorem cacheKey_depends_on_listed_headers (opts : Options) (r1 r2 : http.Request) :
  http.RequestURI r1 = http.RequestURI r2 ->
  Forall (fun k => headerPart r1 k = headerPart r2 k) (default [] (Headers opts)) ->
  cacheKey opts r1 = cacheKey opts r2.
Proof.
  intros Huri Hall. unfold cacheKey. do 2 f_equal.
  rewrite !tohash_headerPart, Huri. generalize (http.RequestURI r2).
  induction Hall as [|k hs Hk Hall IH]; intros acc; [done|].
  cbn [fold_left]. by rewrite Hk, IH.
Qed.

Lemma cacheKey_depends_on_listed_headers_witness :
  cacheKey (sampleOptions 0)
    (http.mkRequest "GET" "/a?x=1"
       {["Accept" := ["text/"; "html"]; "X-Request-Id" := ["1"]]})
  = cacheKey (sampleOptions 0)
      (http.mkRequest "HEAD" "/a?x=1"
         {["Accept" := ["text/html"]; "X-Request-Id" := ["2"]]}).
Proof.
  apply cacheKey_depends_on_listed_headers; [reflexivity|].
  repeat constructor.
Defined.

Lemma length_le_bytes n x : length (le_bytes n x) = n.
Proof.
  revert x. induction n as [|n IH]; intros x; [done|]. cbn. by rewrite IH.
Qed.

Lemma length_md5_Sum msg : length (md5.Sum msg) = 16%nat.
Proof. unfold md5.Sum. by rewrite !length_app, !length_le_bytes. Qed.

Lemma isHexDigit_digit z : 0 <= z < 16 -> isHexDigit (hex.digit z) = true.
Proof.
  intros Hz.
  assert (H : z = 0 \/ z = 1 \/ z = 2 \/ z = 3 \/ z = 4 \/ z = 5 \/ z = 6 \/ z = 7 \/
              z = 8 \/ z = 9 \/ z = 10 \/ z = 11 \/ z = 12 \/ z = 13 \/ z = 14 \/
              z = 15) by lia.
  repeat (destruct H as [->|H]; [reflexivity|]). by subst.
Qed.

Lemma EncodeToString_hex bs :
  String.length (hex.EncodeToString bs) = (2 * length bs)%nat /\
  forallb isHexDigit (list_ascii_of_string (hex.EncodeToString bs)) = true.
Proof.
  induction bs as [|b bs [IHl IHd]]; [done|].
  pose proof (Z_of_byte_range b) as Hb.
  cbn [hex.EncodeToString String.length list_ascii_of_string forallb length].
  rewrite IHl, IHd. split; [lia|].
  rewrite !isHexDigit_digit; [done| |].
  - apply Z.mod_pos_bound. lia.
  - split; [apply Z.div_pos; lia|]. apply Z.div_lt_upper_bound; lia.
Qed.

(** X2: every key is the prefix [gin:cache:] followed by 32 lower-case
    hexadecimal digits, whatever the request and the options. *)
Theorem cacheKey_format (opts : Options) (req : http.Request) :
  exists d,
    cacheKey opts req = KEY_PREFIX +:+ d /\
    String.length d = 32%nat /\
    forallb isHexDigit (list_ascii_of_string d) = true.
Proof.
  eexists. split; [reflexivity|]. unfold md5String.
  destruct (EncodeToString_hex (md5.Sum (list_byte_of_string
              (tohash (default [] (Headers opts)) req)))) as [Hl Hd].
  rewrite Hl, length_md5_Sum. by split.
Qed.

End key_more.

(** * Further properties of the cache and of the handler *)

Section cache_more.

Context {S : Type} {St : Store S} {Cd : Codec}.
Variable downstream : gin.Context -> list gin.Op.

(** X3: [Get] never returns an entry together with an error, and it returns
    an error only when the read of the store failed: then it is that very
    error, the entry is nil, and nothing is decoded or removed. *)
Theorem Cache_Get_error_is_the_store_error key now (w w' : World S) c e :
  Cache_Get key now w = Return (c, Some e) w' ->
  c = None /\
  Store_Get key (store w) = (Err e, store w') /\
  calls w' = calls w ++ [CallGet key (Err e)].
Proof.
  unfold Cache_Get, callGet, callRemove, mbind, M_bind, mret, M_ret, panic.
  destruct (Store_Get key (store w)) as [[data|e'] s1]; cbn.
  - destruct (ptr (Decode data)) as [cch|]; [|done].
    destruct (negb (UnixNano (ExpireAt cch) =? 0) && Before (ExpireAt cch) now); cbn.
    + destruct (Store_Remove key s1). cbn. done.
    + done.
  - intros [= <- <- <-]. done.
Qed.

(** The calls a whole handler run makes on the store. *)
Lemma Cache_Get_calls key now (w : World S) :
  exists r l,
    callsOf (Cache_Get key now w) = calls w ++ CallGet key r :: l /\
    (l = [] \/ exists e, l = [CallRemove key e]).
Proof.
  unfold Cache_Get, callGet, callRemove, mbind, M_bind, mret, M_ret, panic.
  destruct (Store_Get key (store w)) as [[data|e'] s1]; cbn.
  - destruct (ptr (Decode data)) as [cch|];
      [|exists (Ok data), []; split; [done|by left]].
    destruct (negb (UnixNano (ExpireAt cch) =? 0) && Before (ExpireAt cch) now); cbn.
    + destruct (Store_Remove key s1) as [e s2]. cbn.
      rewrite <- app_assoc. cbn.
      exists (Ok data), [CallRemove key e]. split; [done|]. right. by exists e.
    + exists (Ok data), []. split; [done|by left].
  - exists (Err e'), []. split; [done|by left].
Qed.

Lemma onMiss_calls opts key timeNow (w : World S) :
  callsOf (onMiss downstream opts key timeNow w) = calls w \/
  exists d e, callsOf (onMiss downstream opts key timeNow w)
              = calls w ++ [CallSet key d e].
Proof.
  unfold onMiss, Cache_Set, encodeOrPanic, callSet, modWriter, modCtx, getCtx,
    mbind, M_bind, mret, M_ret, panic. cbn.
  destruct (Encode _) as [b|err]; cbn; [|by left].
  destruct (Store_Set key b (store w)) as [r s2]. cbn.
  right. by exists b, r.
Qed.

Lemma onHit_world opts cch timeNow (w : World S) :
  exists c', onHit opts cch timeNow w = Return tt (mkWorld c' (store w) (calls w)).
Proof.
  unfold onHit, modWriter, modCtx, mbind, M_bind, mret, M_ret. cbn.
  destruct (DoNotUseAbort opts); cbn; eauto.
Qed.

(** X11: a handler run makes at most three calls on the store, in a fixed
    order and all on the key of the request: one [Get], then possibly one
    [Remove], then possibly one [Set].  It never calls [Update] or [Keys],
    and a request that is not a GET or lacks the time makes no call. *)
Theorem handler_store_calls opts now (w : World S) :
  let key := cacheKey opts (gin.Request (ctx w)) in
  callsOf (handler downstream opts now w) = calls w \/
  exists r l,
    callsOf (handler downstream opts now w) = calls w ++ CallGet key r :: l /\
    (l = [] \/
     (exists e, l = [CallRemove key e]) \/
     (exists d e, l = [CallSet key d e]) \/
     (exists e1 d e2, l = [CallRemove key e1; CallSet key d e2])).
Proof.
  intros key. unfold handler, getCtx, modCtx, mbind, M_bind.
  destruct (negb _); [by left|].
  destruct (gin.Keys (ctx w) !! "TimeNow") as [[| timeNow | | |]|]; try by left.
  fold key. right.
  destruct (Cache_Get_calls key now w) as (r & l & Hc & Hl).
  destruct (Cache_Get key now w) as [[c e] w1|w1] eqn:Hget; cbn in Hc.
  - cbn [fst]. destruct c as [cch|].
    + destruct (onHit_world opts cch timeNow w1) as (c' & ->). cbn.
      exists r, l. split; [done|]. destruct Hl as [->|[e' ->]]; eauto.
    + destruct (onMiss_calls opts key timeNow w1) as [Hm|(d & e2 & Hm)];
        rewrite Hm, Hc.
      * exists r, l. split; [done|]. destruct Hl as [->|[e' ->]]; eauto.
      * exists r, (l ++ [CallSet key d e2]). split.
        { by rewrite <- app_assoc. }
        destruct Hl as [->|[e' ->]]; cbn; eauto 10.
  - exists r, l. split; [done|]. destruct Hl as [->|[e' ->]]; eauto.
Qed.

(** X10: any failure to read the store, not only a missing key, makes the
    request a miss: the error is dropped, the handlers further down run,
    and the handler goes on to call [Set] with the captured entry. *)
Theorem handler_read_error_is_a_miss opts now (w : World S) timeNow e s1 data :
  http.Method (gin.Request (ctx w)) = "GET" ->
  gin.Keys (ctx w) !! "TimeNow" = Some (gin.anyTime timeNow) ->
  Store_Get (cacheKey opts (gin.Request (ctx w))) (store w) = (Err e, s1) ->
  Encode (capturedEntry opts timeNow
            (missContext downstream opts (cacheKey opts (gin.Request (ctx w)))
               timeNow (ctx w))) = Ok data ->
  let key := cacheKey opts (gin.Request (ctx w)) in
  let c1 := missContext downstream opts key timeNow (ctx w) in
  handler downstream opts now w =
    Return tt
      (mkWorld (gin.setWriter (unwrap (gin.Writer c1)) c1)
         (Store_Set key data s1).2
         (calls w ++ [CallGet key (Err e);
                      CallSet key data (Store_Set key data s1).1])).
Proof.
  intros Hm Hk Hget Henc key c1.
  assert (Hg : Cache_Get key now w
               = Return (None, Some e)
                   (mkWorld (ctx w) s1 (calls w ++ [CallGet key (Err e)]))).
  { unfold Cache_Get, callGet, mbind, M_bind, mret, M_ret. fold key in Hget.
    by rewrite Hget. }
  rewrite (handler_on_miss downstream opts now w _ timeNow _ data Hm Hk Hg Henc).
  cbn [ctx store calls]. by rewrite <- app_assoc.
Qed.

Lemma hit_header_lookups (h : gmap string (list string)) (v : string) :
  http.Header_Set "Cache-Control" v (http.Header_Set "X-Gin-Cache-Hit" "HIT" h)
    !! "X-Gin-Cache-Hit" = Some ["HIT"] /\
  http.Header_Set "Cache-Control" v (http.Header_Set "X-Gin-Cache-Hit" "HIT" h)
    !! "Cache-Control" = Some [v].
Proof.
  unfold http.Header_Set.
  change (http.CanonicalMIMEHeaderKey "Cache-Control") with "Cache-Control".
  change (http.CanonicalMIMEHeaderKey "X-Gin-Cache-Hit") with "X-Gin-Cache-Hit".
  split.
  - rewrite lookup_insert_ne by done. apply lookup_insert_eq.
  - apply lookup_insert_eq.
Qed.

(** X9: on a hit the handlers further down are not consulted and the store
    is not touched again.  The response gets the body of the entry appended
    and the header out, the status of the entry unless the header was out
    already, [X-Gin-Cache-Hit] set to [HIT] alone and [Cache-Control] set
    to the directive for the time at hand, whatever the entry carried for
    them; the context is aborted unless [DoNotUseAbort] is set. *)
Theorem handler_on_hit opts now (w w1 : World S) timeNow cch e
    (w0 : gin.responseWriter) :
  http.Method (gin.Request (ctx w)) = "GET" ->
  gin.Keys (ctx w) !! "TimeNow" = Some (gin.anyTime timeNow) ->
  Cache_Get (cacheKey opts (gin.Request (ctx w))) now w = Return (Some cch, e) w1 ->
  gin.Writer (ctx w) = gin.ginWriter w0 ->
  exists h,
    handler downstream opts now w =
      Return tt
        (mkWorld
           (gin.mkContext (gin.Request (ctx w))
              (gin.ginWriter
                 (gin.mkResponseWriter h
                    (if (0 <? Status cch) && negb (gin.status w0 =? Status cch)
                        && negb (gin.written w0)
                     then Status cch else gin.status w0)
                    true (gin.sent w0 ++ Body cch)))
              (gin.Keys (ctx w))
              (if DoNotUseAbort opts then gin.Aborted (ctx w) else true))
           (store w1) (calls w1)) /\
    h !! "X-Gin-Cache-Hit" = Some ["HIT"] /\
    h !! "Cache-Control" = Some [getCacheControl (maxAgeOf timeNow (Expire opts))] /\
    handler downstream opts now w = handler (fun _ => []) opts now w.
Proof.
  intros Hm Hk Hget Hw. apply String.eqb_eq in Hm.
  pose proof (Cache_Get_ctx _ _ _ _ _ Hget) as Hctx.
  eexists. split; [|split; [|split]].
  - unfold handler, getCtx, mbind, M_bind. rewrite Hm. cbn [negb].
    rewrite Hk, Hget. cbn [fst].
    unfold onHit, modWriter, modCtx, mbind, M_bind, mret, M_ret.
    cbn [ctx store calls]. rewrite Hctx.
    cbn [gin.setWriter gin.Writer gin.Request gin.Keys gin.Aborted gin.Abort].
    rewrite Hw. cbn [gin.WriteHeader].
    destruct ((0 <? Status cch) && negb (gin.status w0 =? Status cch)
              && negb (gin.written w0));
      cbn [gin.updHeader gin.Write gin.header gin.status gin.written gin.sent];
      destruct (DoNotUseAbort opts);
      cbn [ctx store calls gin.Request gin.Writer gin.Keys gin.Aborted];
      reflexivity.
  - apply hit_header_lookups.
  - apply hit_header_lookups.
  - unfold handler, getCtx, mbind, M_bind. rewrite Hm. cbn [negb].
    by rewrite Hk, Hget.
Qed.

(** X12: an entry the miss path stored with a TTL above zero is served up to
    and including its bucket boundary and taken for expired from the first
    nanosecond after it (for reference times between 1970 and 2262, where
    [UnixNano] does not wrap). *)
Theorem entry_is_fresh_until_boundary opts key timeNow now (w : World S)
    data s1 cch :
  valid timeNow -> norm now -> 0 < Expire opts <= maxInt64 ->
  unixEpochAbs <= time.abs timeNow ->
  time.abs timeNow + Expire opts <= unixEpochAbs + maxInt64 ->
  Store_Get key (store w) = (Ok data, s1) ->
  ptr (Decode data) = Some cch ->
  ExpireAt cch = entryExpireAt opts timeNow ->
  let boundary := Expire opts * (time.abs timeNow / Expire opts) + Expire opts in
  (time.abs now <= boundary ->
   Cache_Get key now w
   = Return (Some cch, None)
       (mkWorld (ctx w) s1 (calls w ++ [CallGet key (Ok data)]))) /\
  (boundary < time.abs now ->
   Cache_Get key now w
   = Return (None, None)
       (mkWorld (ctx w) (Store_Remove key s1).2
          (calls w ++ [CallGet key (Ok data);
                       CallRemove key (Store_Remove key s1).1]))).
Proof.
  intros Hv Hn HD Hlo Hhi Hget Hdec Hexp boundary.
  rewrite (Cache_Get_decoded _ _ _ _ _ _ Hget Hdec), Hexp.
  unfold entryExpireAt. destruct (Z.eqb_spec (Expire opts) 0) as [|_]; [lia|].
  unfold getExpiresAtTime.
  destruct (roundTimeUp_spec timeNow (Expire opts) Hv HD) as [Hnb Hab].
  pose proof (rem_bound timeNow (Expire opts) HD) as Hr.
  pose proof (Z.div_mod (time.abs timeNow) (Expire opts) ltac:(lia)) as Hdm.
  fold boundary in Hab.
  assert (Hu : UnixNano (roundTimeUp timeNow (Expire opts)) = boundary - unixEpochAbs).
  { rewrite UnixNano_in_range; [lia|done|].
    unfold isInt64, minInt64, maxInt64 in *. lia. }
  rewrite Hu.
  destruct (Z.eqb_spec (boundary - unixEpochAbs) 0) as [|_]; [lia|]. cbn [negb andb].
  split; intros Hcmp.
  - destruct (Before (roundTimeUp timeNow (Expire opts)) now) eqn:E; [|done].
    apply (Before_abs _ _ Hnb Hn) in E. lia.
  - assert (E : Before (roundTimeUp timeNow (Expire opts)) now = true)
      by (apply (Before_abs _ _ Hnb Hn); lia).
    by rewrite E.
Qed.

End cache_more.

(** * Writing an entry and reading it back *)

Section roundtrip_more.

Import gob.

(** Decoding undoes encoding, for the entries a Go program can hold. *)
Lemma Decode_Encode (tid : Z) (c : Cached) (bs : list byte) :
  isInt64 tid -> wfCached c ->
  gob.Encode tid c = Ok bs ->
  gob.Decode tid bs = mkDecodeResult (Some c) None.
Proof.
  intros Htid Hwf Henc. unfold gob.Encode in Henc.
  destruct (Z.leb_spec tooBig (Z.of_nat (length (encodeInt tid ++ encodeStruct c))))
    as [|Hsmall]; [done|].
  injection Henc as <-.
  destruct (encodeStruct_parts c) as [Hb Hm].
  assert (Hlen : (length (encodeStruct c)
                  <= length (encodeInt tid ++ encodeStruct c))%nat)
    by (rewrite length_app; lia).
  unfold gob.Decode.
  rewrite decodeUint_encodeUint by (unfold tooBig in Hsmall; lia).
  destruct (Z.leb_spec tooBig (Z.of_nat (length (encodeInt tid ++ encodeStruct c))));
    [lia|].
  rewrite Z.ltb_irrefl. cbn [orb]. rewrite Nat2Z.id, firstn_all.
  rewrite decodeInt_encodeInt, Z.eqb_refl by done.
  unfold decodeStruct. rewrite <- (app_nil_r (encodeStruct c)).
  rewrite decodeStruct_encodeStruct; [done|done|..]; unfold small; lia.
Qed.

End roundtrip_more.

Section set_then_get.

Context {S : Type} {St : Store S}.

(** X4: an entry written with [Set] is read back by [Get] as it was
    written, field for field, on any store that hands back under a key the
    bytes it accepted for it, as long as [Get] does not count the entry as
    expired. *)
Theorem Cache_Set_then_Get tid key c now (w : World S) bs s1 s2 :
  isInt64 tid -> wfCached c ->
  gob.Encode tid c = Ok bs ->
  Store_Set key bs (store w) = (None, s1) ->
  Store_Get key s1 = (Ok bs, s2) ->
  negb (UnixNano (ExpireAt c) =? 0) && Before (ExpireAt c) now = false ->
  Cache_Set (Cd := gob.codec tid) key c w
  = Return None (mkWorld (ctx w) s1 (calls w ++ [CallSet key bs None])) /\
  Cache_Get (Cd := gob.codec tid) key now
    (mkWorld (ctx w) s1 (calls w ++ [CallSet key bs None]))
  = Return (Some c, None)
      (mkWorld (ctx w) s2 (calls w ++ [CallSet key bs None; CallGet key (Ok bs)])).
Proof.
  intros Htid Hwf Henc Hset Hget Hfresh. split.
  - unfold Cache_Set, encodeOrPanic, callSet, mbind, M_bind, mret, M_ret.
    change (@Encode (gob.codec tid) c) with (gob.Encode tid c).
    rewrite Henc. by rewrite Hset.
  - rewrite (Cache_Get_decoded (Cd := gob.codec tid) key now _ bs s2 c).
    + rewrite Hfresh. cbn [ctx calls]. by rewrite <- app_assoc.
    + exact Hget.
    + change (@Decode (gob.codec tid) bs) with (gob.Decode tid bs).
      by rewrite (Decode_Encode tid c bs).
Qed.

(** X5: the same for [Update], which sends the same bytes through
    [Store.Update]: the replaced entry is what [Get] returns next. *)
Theorem Cache_Update_then_Get tid key c now (w : World S) bs s1 s2 :
  isInt64 tid -> wfCached c ->
  gob.Encode tid c = Ok bs ->
  Store_Update key bs (store w) = (None, s1) ->
  Store_Get key s1 = (Ok bs, s2) ->
  negb (UnixNano (ExpireAt c) =? 0) && Before (ExpireAt c) now = false ->
  Cache_Update (Cd := gob.codec tid) key c w
  = Return None (mkWorld (ctx w) s1 (calls w ++ [CallUpdate key bs None])) /\
  Cache_Get (Cd := gob.codec tid) key now
    (mkWorld (ctx w) s1 (calls w ++ [CallUpdate key bs None]))
  = Return (Some c, None)
      (mkWorld (ctx w) s2 (calls w ++ [CallUpdate key bs None; CallGet key (Ok bs)])).
Proof.
  intros Htid Hwf Henc Hset Hget Hfresh. split.
  - unfold Cache_Update, encodeOrPanic, callUpdate, mbind, M_bind, mret, M_ret.
    change (@Encode (gob.codec tid) c) with (gob.Encode tid c).
    rewrite Henc. by rewrite Hset.
  - rewrite (Cache_Get_decoded (Cd := gob.codec tid) key now _ bs s2 c).
    + rewrite Hfresh. cbn [ctx calls]. by rewrite <- app_assoc.
    + exact Hget.
    + change (@Decode (gob.codec tid) bs) with (gob.Decode tid bs).
      by rewrite (Decode_Encode tid c bs).
Qed.

End set_then_get.

(** ** The further properties at concrete requests *)

Lemma sample_key :
  cacheKey (sampleOptions (60 * Second)) (sampleRequest "GET") = sampleKey.
Proof. vm_compute. reflexivity. Qed.

Lemma Cache_Get_error_is_the_store_error_witness :
  (None : option Cached) = None /\
  Store_Get (Store := InMemory) sampleKey (store (sampleWorld "GET" sampleKeys ∅))
  = (Err ErrNotFound, ∅) /\
  [CallGet sampleKey (Err ErrNotFound)]
  = calls (sampleWorld "GET" sampleKeys ∅) ++ [CallGet sampleKey (Err ErrNotFound)].
Proof.
  exact (Cache_Get_error_is_the_store_error (St := InMemory) (Cd := gob.codec 65)
           sampleKey jan2026 (sampleWorld "GET" sampleKeys ∅)
           (mkWorld (sampleContext "GET" sampleKeys) ∅
              [CallGet sampleKey (Err ErrNotFound)])
           None ErrNotFound eq_refl).
Defined.

Lemma handler_read_error_is_a_miss_witness :
  let w := mkWorld (sampleContext "GET" sampleKeys) tt [] in
  let key := cacheKey (sampleOptions (60 * Second)) (gin.Request (ctx w)) in
  let c1 := missContext sampleDownstream (sampleOptions (60 * Second)) key jan2026
              (ctx w) in
  let data := encoded (capturedEntry (sampleOptions (60 * Second)) jan2026
                (missContext sampleDownstream (sampleOptions (60 * Second))
                   sampleKey jan2026 (sampleContext "GET" sampleKeys))) in
  handler (St := Unavailable) (Cd := gob.codec 65) sampleDownstream
    (sampleOptions (60 * Second)) (mkTime 63902822405 0) w
  = Return tt
      (mkWorld (gin.setWriter (unwrap (gin.Writer c1)) c1)
         (Store_Set (Store := Unavailable) key data tt).2
         (calls w ++ [CallGet key (Err errUnavailable);
                      CallSet key data
                        (Store_Set (Store := Unavailable) key data tt).1])).
Proof.
  exact (handler_read_error_is_a_miss (St := Unavailable) (Cd := gob.codec 65)
           sampleDownstream (sampleOptions (60 * Second)) (mkTime 63902822405 0)
           (mkWorld (sampleContext "GET" sampleKeys) tt []) jan2026
           errUnavailable tt _ eq_refl eq_refl eq_refl sample_entry_encodes).
Defined.

Lemma sample_lookup_hits :
  Cache_Get (St := InMemory) (Cd := gob.codec 65)
    (cacheKey (sampleOptions (60 * Second))
       (gin.Request (ctx (sampleWorld "GET" sampleKeys (sampleStore (encoded freshEntry))))))
    (mkTime 63902822405 0)
    (sampleWorld "GET" sampleKeys (sampleStore (encoded freshEntry)))
  = Return (Some freshEntry, None)
      (mkWorld (sampleContext "GET" sampleKeys) (sampleStore (encoded freshEntry))
         [CallGet sampleKey (Ok (encoded freshEntry))]).
Proof.
  change (gin.Request (ctx (sampleWorld "GET" sampleKeys
                              (sampleStore (encoded freshEntry)))))
    with (sampleRequest "GET").
  rewrite sample_key. reflexivity.
Qed.

Lemma handler_on_hit_witness :
  let w := sampleWorld "GET" sampleKeys (sampleStore (encoded freshEntry)) in
  exists h,
    handler (St := InMemory) (Cd := gob.codec 65) sampleDownstream
      (sampleOptions (60 * Second)) (mkTime 63902822405 0) w =
      Return tt
        (mkWorld
           (gin.mkContext (sampleRequest "GET")
              (gin.ginWriter
                 (gin.mkResponseWriter h 200 true (list_byte_of_string "hello")))
              sampleKeys true)
           (sampleStore (encoded freshEntry))
           [CallGet sampleKey (Ok (encoded freshEntry))]) /\
    h !! "X-Gin-Cache-Hit" = Some ["HIT"] /\
    h !! "Cache-Control"
    = Some [getCacheControl (maxAgeOf jan2026 (Expire (sampleOptions (60 * Second))))] /\
    handler (St := InMemory) (Cd := gob.codec 65) sampleDownstream
      (sampleOptions (60 * Second)) (mkTime 63902822405 0) w
    = handler (St := InMemory) (Cd := gob.codec 65) (fun _ => [])
        (sampleOptions (60 * Second)) (mkTime 63902822405 0) w.
Proof.
  exact (handler_on_hit (St := InMemory) (Cd := gob.codec 65) sampleDownstream
           (sampleOptions (60 * Second)) (mkTime 63902822405 0)
           (sampleWorld "GET" sampleKeys (sampleStore (encoded freshEntry)))
           _ jan2026 freshEntry None (gin.mkResponseWriter ∅ 200 false [])
           eq_refl eq_refl sample_lookup_hits eq_refl).
Defined.

Lemma entry_is_fresh_until_boundary_witness :
  let w := sampleWorld "GET" sampleKeys (sampleStore (encoded freshEntry)) in
  let boundary := 60 * Second * (time.abs (mkTime 63902822410 0) / (60 * Second))
                  + 60 * Second in
  (time.abs (mkTime 63902822460 0) <= boundary ->
   Cache_Get (St := InMemory) (Cd := gob.codec 65) sampleKey (mkTime 63902822460 0) w
   = Return (Some freshEntry, None)
       (mkWorld (ctx w) (sampleStore (encoded freshEntry))
          (calls w ++ [CallGet sampleKey (Ok (encoded freshEntry))]))) /\
  (boundary < time.abs (mkTime 63902822460 0) ->
   Cache_Get (St := InMemory) (Cd := gob.codec 65) sampleKey (mkTime 63902822460 0) w
   = Return (None, None)
       (mkWorld (ctx w)
          (Store_Remove (Store := InMemory) sampleKey
             (sampleStore (encoded freshEntry))).2
          (calls w ++ [CallGet sampleKey (Ok (encoded freshEntry));
                       CallRemove sampleKey
                         (Store_Remove (Store := InMemory) sampleKey
                            (sampleStore (encoded freshEntry))).1]))).
Proof.
  assert (Hv : valid (mkTime 63902822410 0)) by (unfold valid; simpl; lia).
  assert (Hn : norm (mkTime 63902822460 0)) by (unfold norm; simpl; lia).
  assert (HD : 0 < Expire (sampleOptions (60 * Second)) <= maxInt64)
    by (change (Expire (sampleOptions (60 * Second))) with 60000000000;
        unfold maxInt64; lia).
  assert (Hlo : unixEpochAbs <= time.abs (mkTime 63902822410 0))
    by (unfold unixEpochAbs, time.abs; simpl; lia).
  assert (Hhi : time.abs (mkTime 63902822410 0) + Expire (sampleOptions (60 * Second))
                <= unixEpochAbs + maxInt64)
    by (change (Expire (sampleOptions (60 * Second))) with 60000000000;
        unfold unixEpochAbs, time.abs, maxInt64; simpl; lia).
  assert (Hdec : ptr (Decode (Codec := gob.codec 65) (encoded freshEntry))
                 = Some freshEntry) by reflexivity.
  assert (Hexp : ExpireAt freshEntry
                 = entryExpireAt (sampleOptions (60 * Second)) (mkTime 63902822410 0))
    by (vm_compute; reflexivity).
  exact (entry_is_fresh_until_boundary (St := InMemory) (Cd := gob.codec 65)
           (sampleOptions (60 * Second)) sampleKey (mkTime 63902822410 0)
           (mkTime 63902822460 0)
           (sampleWorld "GET" sampleKeys (sampleStore (encoded freshEntry)))
           (encoded freshEntry) (sampleStore (encoded freshEntry)) freshEntry
           Hv Hn HD Hlo Hhi eq_refl Hdec Hexp).
Defined.

Lemma Cache_Set_then_Get_witness :
  let w := sampleWorld "GET" sampleKeys ∅ in
  Cache_Set (St := InMemory) (Cd := gob.codec 65) sampleKey freshEntry w
  = Return None
      (mkWorld (ctx w) (sampleStore (encoded freshEntry))
         (calls w ++ [CallSet sampleKey (encoded freshEntry) None])) /\
  Cache_Get (St := InMemory) (Cd := gob.codec 65) sampleKey jan2026
    (mkWorld (ctx w) (sampleStore (encoded freshEntry))
       (calls w ++ [CallSet sampleKey (encoded freshEntry) None]))
  = Return (Some freshEntry, None)
      (mkWorld (ctx w) (sampleStore (encoded freshEntry))
         (calls w ++ [CallSet sampleKey (encoded freshEntry) None;
                      CallGet sampleKey (Ok (encoded freshEntry))])).
Proof.
  assert (Htid : isInt64 65) by (unfold isInt64, minInt64, maxInt64; lia).
  assert (Hwf : wfCached freshEntry)
    by (unfold wfCached, isInt64, minInt64, maxInt64, norm; cbn; lia).
  assert (Hfresh : negb (UnixNano (ExpireAt freshEntry) =? 0)
                   && Before (ExpireAt freshEntry) jan2026 = false)
    by (vm_compute; reflexivity).
  exact (Cache_Set_then_Get (St := InMemory) 65 sampleKey freshEntry jan2026
           (sampleWorld "GET" sampleKeys ∅) (encoded freshEntry)
           (sampleStore (encoded freshEntry)) (sampleStore (encoded freshEntry))
           Htid Hwf eq_refl eq_refl eq_refl Hfresh).
Defined.

Lemma Cache_Update_then_Get_witness :
  let w := sampleWorld "GET" sampleKeys (sampleStore (encoded (sampleEntry jan2026))) in
  Cache_Update (St := InMemory) (Cd := gob.codec 65) sampleKey freshEntry w
  = Return None
      (mkWorld (ctx w) (sampleStore (encoded freshEntry))
         (calls w ++ [CallUpdate sampleKey (encoded freshEntry) None])) /\
  Cache_Get (St := InMemory) (Cd := gob.codec 65) sampleKey jan2026
    (mkWorld (ctx w) (sampleStore (encoded freshEntry))
       (calls w ++ [CallUpdate sampleKey (encoded freshEntry) None]))
  = Return (Some freshEntry, None)
      (mkWorld (ctx w) (sampleStore (encoded freshEntry))
         (calls w ++ [CallUpdate sampleKey (encoded freshEntry) None;
                      CallGet sampleKey (Ok (encoded freshEntry))])).
Proof.
  assert (Htid : isInt64 65) by (unfold isInt64, minInt64, maxInt64; lia).
  assert (Hwf : wfCached freshEntry)
    by (unfold wfCached, isInt64, minInt64, maxInt64, norm; cbn; lia).
  assert (Hfresh : negb (UnixNano (ExpireAt freshEntry) =? 0)
                   && Before (ExpireAt freshEntry) jan2026 = false)
    by (vm_compute; reflexivity).
  assert (Hupd : Store_Update (Store := InMemory) sampleKey (encoded freshEntry)
                   (store (sampleWorld "GET" sampleKeys
                             (sampleStore (encoded (sampleEntry jan2026)))))
                 = (None, sampleStore (encoded freshEntry)))
    by reflexivity.
  exact (Cache_Update_then_Get (St := InMemory) 65 sampleKey freshEntry jan2026
           (sampleWorld "GET" sampleKeys (sampleStore (encoded (sampleEntry jan2026))))
           (encoded freshEntry)
           (sampleStore (encoded freshEntry)) (sampleStore (encoded freshEntry))
           Htid Hwf eq_refl Hupd eq_refl Hfresh).
Defined.

(** * The headers of a miss *)

Section miss_headers.

Lemma Header_updHeader f (W : gin.ResponseWriter) :
  gin.Header (gin.updHeader f W) = f (gin.Header W).
Proof. induction W as [w|W IH body]; [done|]. cbn. exact IH. Qed.

Lemma Header_Add_lookup (k v k' : string) (h : gmap string (list string)) :
  http.CanonicalMIMEHeaderKey k = k ->
  http.Header_Add k v h !! k'
  = if decide (k = k') then Some (default [] (h !! k) ++ [v]) else h !! k'.
Proof.
  intros Hk. unfold http.Header_Add. rewrite Hk.
  destruct (decide (k = k')) as [<-|Hne].
  - apply lookup_insert_eq.
  - by apply lookup_insert_ne.
Qed.

(** X8: on a miss the three headers of the cache are appended, not set: the
    handlers further down find [Etag], [X-Gin-Cache-Hit] and [Cache-Control]
    with the values they had before followed by the key, [MISS] and the
    directive, and every other header as it was. *)
Theorem miss_headers_are_appended opts key timeNow (c : gin.Context) :
  let h := gin.Header (gin.Writer c) in
  let h' := gin.Header (gin.Writer (missContext (fun _ => []) opts key timeNow c)) in
  h' !! "Etag" = Some (default [] (h !! "Etag") ++ [key]) /\
  h' !! "X-Gin-Cache-Hit" = Some (default [] (h !! "X-Gin-Cache-Hit") ++ ["MISS"]) /\
  h' !! "Cache-Control"
  = Some (default [] (h !! "Cache-Control")
          ++ [getCacheControl (maxAgeOf timeNow (Expire opts))]) /\
  (forall k, k <> "Etag" -> k <> "X-Gin-Cache-Hit" -> k <> "Cache-Control" ->
             h' !! k = h !! k).
Proof.
  intros h h'.
  assert (Hh : h' = http.Header_Add "Cache-Control"
                      (getCacheControl (maxAgeOf timeNow (Expire opts)))
                      (http.Header_Add "X-Gin-Cache-Hit" "MISS"
                         (http.Header_Add "Etag" key h))).
  { subst h h'. unfold missContext, gin.Next.
    destruct (gin.Aborted _); cbn [fold_left gin.setWriter gin.Writer];
      by rewrite !Header_updHeader. }
  rewrite Hh.
  repeat split; [..|intros k H1 H2 H3];
    rewrite !Header_Add_lookup by reflexivity;
    repeat (destruct (decide _) as [?|?]; try done).
Qed.

End miss_headers.
